(** * The service registry of go-xml-rpc ([map.go])

    A shallow embedding of [serviceMap.register] and [serviceMap.get],
    together with the fragments of Go's [reflect], [strings] and
    [unicode/utf8] packages that the two functions call, and the
    properties of the registry stated over that embedding.

    Conventions.
    - A Go [string] is a byte sequence: Rocq's [string].
    - [map[string]*T] is a [gmap string T] under an [option]: [None] is the
      nil map (reads give the zero value, writes panic).
    - A [*service] or [*serviceMethod] that may be nil is an [option] of
      the record, [None] being the nil pointer; the maps hold the records
      themselves, since [register] only ever stores the address of a fresh
      struct.  No service is written to after it has been stored, so the
      record stands for the object it points to.
    - A run-time panic is an outcome of its own, never an error value.
    - [log.Printf] writes to the process log only; the model keeps the
      evaluation of its arguments (which can panic) and drops the output.
    - The mutex brackets are no-ops for one caller at a time and are elided. *)

From Stdlib Require Import ZArith Ascii String.
From stdpp Require Import base option list strings gmap fin_maps.

Local Open Scope string_scope.

(** ** Control flow: panics and early exits *)

Inductive panic : Set :=
| NilDereference      (* field or method of a nil pointer / nil interface *)
| ZeroValueType       (* reflect.Value.Type on the zero Value *)
| ElemOfNonPointer    (* reflect.Type.Elem on a type without elements *)
| IndexOutOfRange     (* slice index, Type.In, Type.Out *)
| NilMapWrite.        (* assignment to an entry of a nil map *)

(** What calling a function gives: a panic, or the returned value. *)
Inductive outcome (A : Type) : Type :=
| Panic (p : panic)
| Ret (a : A).
Arguments Panic {A} p.
Arguments Ret {A} a.

(** A statement sequence inside a body whose early exit ([return] in a
    function, [continue] in a loop body) carries an [R]. *)
Inductive step (R A : Type) : Type :=
| Panicked (p : panic)
| Exit (r : R)
| Next (a : A).
Arguments Panicked {R A} p.
Arguments Exit {R A} r.
Arguments Next {R A} a.

#[global] Instance step_bind {R} : MBind (step R) := λ A B f x,
  match x with
  | Panicked p => Panicked p
  | Exit r => Exit r
  | Next a => f a
  end.

(** Call a function from inside a body. *)
Definition call {R A} (o : outcome A) : step R A :=
  match o with
  | Panic p => Panicked p
  | Ret a => Next a
  end.

(** Close a function body: falling off the end returns the last value. *)
Definition body {R} (b : step R R) : outcome R :=
  match b with
  | Panicked p => Panic p
  | Exit r => Ret r
  | Next r => Ret r
  end.

(** [p.field]: dereference of a possibly nil pointer. *)
Definition deref {R A} (p : option A) : step R A :=
  match p with
  | None => Panicked NilDereference
  | Some a => Next a
  end.

(** [a[i]] on a slice. *)
Definition index {R A} (a : list A) (i : nat) : step R A :=
  match a !! i with
  | None => Panicked IndexOutOfRange
  | Some x => Next x
  end.

(** ** [unicode/utf8] and [strings] *)

Section Utf8.
Local Open Scope Z_scope.

Definition rune := Z.
Definition RuneError : rune := 65533.

Definition byteZ (c : ascii) : Z := Z.of_N (N_of_ascii c).

(** [s[i]] for an index the caller has checked to be in range. *)
Definition byteAt (s : string) (i : nat) : Z :=
  match String.get i s with
  | Some c => byteZ c
  | None => 0
  end.

(** utf8.first: size and accept-range class of a leading byte. *)
Definition utf8_first (b : Z) : Z :=
  if (b <? 128)%Z then 240        (* as: ASCII *)
  else if (b <? 194)%Z then 241   (* xx: invalid *)
  else if (b <? 224)%Z then 2     (* s1 *)
  else if (b =? 224)%Z then 19    (* s2 *)
  else if (b <? 237)%Z then 3     (* s3 *)
  else if (b =? 237)%Z then 35    (* s4 *)
  else if (b <? 240)%Z then 3     (* s3 *)
  else if (b =? 240)%Z then 52    (* s5 *)
  else if (b <? 244)%Z then 4     (* s6 *)
  else if (b =? 244)%Z then 68    (* s7 *)
  else 241.

(** utf8.acceptRanges: bounds on the second byte. *)
Definition utf8_acceptRange (i : Z) : Z * Z :=
  if (i =? 1)%Z then (160, 191)
  else if (i =? 2)%Z then (128, 159)
  else if (i =? 3)%Z then (144, 191)
  else if (i =? 4)%Z then (128, 143)
  else (128, 191).

Definition continuation (b : Z) : bool := (128 <=? b)%Z && (b <=? 191)%Z.

(** utf8.DecodeRuneInString: the first rune of [s] and its width. *)
Definition DecodeRuneInString (s : string) : rune * nat :=
  let n := String.length s in
  if (n <? 1)%nat then (RuneError, 0%nat)
  else
    let s0 := byteAt s 0 in
    let x := utf8_first s0 in
    if (240 <=? x)%Z then
      (if (x =? 240)%Z then s0 else RuneError, 1%nat)
    else
      let sz := Z.to_nat (Z.land x 7) in
      let '(lo, hi) := utf8_acceptRange (Z.shiftr x 4) in
      if (n <? sz)%nat then (RuneError, 1%nat)
      else
        let s1 := byteAt s 1 in
        if (s1 <? lo)%Z || (hi <? s1)%Z then (RuneError, 1%nat)
        else if (sz <=? 2)%nat then
          (Z.lor (Z.shiftl (Z.land s0 31) 6) (Z.land s1 63), 2%nat)
        else
          let s2 := byteAt s 2 in
          if negb (continuation s2) then (RuneError, 1%nat)
          else if (sz <=? 3)%nat then
            (Z.lor (Z.lor (Z.shiftl (Z.land s0 15) 12)
                          (Z.shiftl (Z.land s1 63) 6))
                   (Z.land s2 63), 3%nat)
          else
            let s3 := byteAt s 3 in
            if negb (continuation s3) then (RuneError, 1%nat)
            else
              (Z.lor (Z.lor (Z.lor (Z.shiftl (Z.land s0 7) 18)
                                   (Z.shiftl (Z.land s1 63) 12))
                            (Z.shiftl (Z.land s2 63) 6))
                     (Z.land s3 63), 4%nat).

End Utf8.

(** strings.Split(s, sep) for a separator of one byte: the pieces of [s]
    between the occurrences of [sep], in order; never empty. *)
Fixpoint strings_Split (s : string) (sep : ascii) : list string :=
  match s with
  | EmptyString => [EmptyString]
  | String c rest =>
      if Ascii.eqb c sep then EmptyString :: strings_Split rest sep
      else match strings_Split rest sep with
           | [] => [String c EmptyString]
           | p :: ps => String c p :: ps
           end
  end.

(** ** [reflect]: types, methods, values *)

Inductive baseKind : Set :=
| Invalid | Bool | Int | Int8 | Int16 | Int32 | Int64
| Uint | Uint8 | Uint16 | Uint32 | Uint64 | Uintptr
| Float32 | Float64 | Complex64 | Complex128
| Array | Chan | Func | Interface | Map | Slice | String_ | Struct
| UnsafePointer.

Inductive Kind : Set :=
| Ptr
| NotPtr (k : baseKind).

(** A type descriptor.  [TBase] is any type that is not a pointer, with its
    package path, its name (both empty for an unnamed type, the path empty
    for a predeclared one) and its printed form; [TPtr e] is [*e]. *)
Inductive rtype : Set :=
| TBase (k : baseKind) (pkgPath name str : string)
| TPtr (elem : rtype).

#[global] Instance baseKind_eq_dec : EqDecision baseKind.
Proof. solve_decision. Defined.
#[global] Instance Kind_eq_dec : EqDecision Kind.
Proof. solve_decision. Defined.
#[global] Instance rtype_eq_dec : EqDecision rtype.
Proof. solve_decision. Defined.

Definition Kind_of (t : rtype) : Kind :=
  match t with
  | TBase k _ _ _ => NotPtr k
  | TPtr _ => Ptr
  end.

(** Type.Elem, for the kinds this model has: defined on pointers only. *)
Definition Elem {R} (t : rtype) : step R rtype :=
  match t with
  | TBase _ _ _ _ => Panicked ElemOfNonPointer
  | TPtr e => Next e
  end.

Definition Name_of (t : rtype) : string :=
  match t with
  | TBase _ _ n _ => n
  | TPtr _ => ""
  end.

Definition PkgPath_of (t : rtype) : string :=
  match t with
  | TBase _ p _ _ => p
  | TPtr _ => ""
  end.

Fixpoint String_of (t : rtype) : string :=
  match t with
  | TBase _ _ _ s => s
  | TPtr e => "*" ++ String_of e
  end.

(** A function type: the inputs (for a method of a concrete type the
    receiver comes first) and the outputs. *)
Record funcType : Set := { ins : list rtype; outs : list rtype }.

Definition NumIn (f : funcType) : nat := List.length (ins f).
Definition NumOut (f : funcType) : nat := List.length (outs f).
Definition In_ {R} (f : funcType) (i : nat) : step R rtype := index (ins f) i.
Definition Out {R} (f : funcType) (i : nat) : step R rtype := index (outs f) i.

(** reflect.Method: [PkgPath] is empty exactly for an exported method. *)
Record Method : Set := { Name : string; PkgPath : string; Typ : funcType }.

#[global] Instance funcType_eq_dec : EqDecision funcType.
Proof. solve_decision. Defined.
#[global] Instance Method_eq_dec : EqDecision Method.
Proof. solve_decision. Defined.

(** The reflect.Type of a receiver: the descriptor and its method set, in
    the order [Method(0)], [Method(1)], ... *)
Record rcvrTypeInfo : Set := { typ : rtype; methodSet : list Method }.

(** An [interface{}] argument: nil, or a dynamic type with a value, of
    which the model keeps whether it is a nil pointer. *)
Inductive iface : Set :=
| NilIface
| Iface (T : rcvrTypeInfo) (isNil : bool).

(** reflect.Value, as far as [register] looks at it. *)
Inductive Value : Set :=
| ZeroValue
| ValueOfType (t : rtype) (isNil : bool).

Definition reflect_ValueOf (i : iface) : Value :=
  match i with
  | NilIface => ZeroValue
  | Iface T isNil => ValueOfType (typ T) isNil
  end.

Definition reflect_TypeOf (i : iface) : option rcvrTypeInfo :=
  match i with
  | NilIface => None
  | Iface T _ => Some T
  end.

(** [reflect.Indirect(v).Type()]: [Indirect] follows one pointer (a nil
    pointer gives the zero Value) and leaves other values alone; [Type]
    panics on the zero Value. *)
Definition reflect_Indirect_Type {R} (v : Value) : step R rtype :=
  match v with
  | ZeroValue => Panicked ZeroValueType
  | ValueOfType (TPtr e) isNil =>
      if isNil then Panicked ZeroValueType else Next e
  | ValueOfType t _ => Next t
  end.

(** [typeOfError] and [typeOfRequest]. *)
Definition typeOfError : rtype := TBase Interface "" "error" "error".
Definition typeOfRequest : rtype :=
  TBase Struct "net/http" "Request" "http.Request".

(** ** Errors

    [fmt.Errorf] values, kept as the format used and its argument. *)
Inductive error : Set :=
| ErrTypeNotExported (name : string)   (* rpc: type %q is not exported *)
| ErrNoServiceName (typ : string)      (* rpc: no service name for type %q *)
| ErrNoSuitableMethods (name : string) (* rpc: %q has no exported methods of suitable type *)
| ErrAlreadyDefined (name : string)    (* rpc: service already defined: %q *)
| ErrIllFormed (method : string)       (* rpc: service/method request ill-formed: %q *)
| ErrNoService (method : string)       (* rpc: can't find service %q *)
| ErrNoMethod (method : string).       (* rpc: can't find method %q *)

(** ** [service], [serviceMethod], [serviceMap] *)

Record serviceMethod : Set := {
  method : Method;       (* receiver method *)
  argsType : rtype;      (* type of the request argument *)
  replyType : rtype      (* type of the response argument *)
}.

Record service : Type := {
  name : string;                        (* name of service *)
  rcvr : Value;                         (* receiver of methods for the service *)
  rcvrType : option rcvrTypeInfo;       (* type of the receiver *)
  methods : gmap string serviceMethod;  (* registered methods *)
  passReq : bool
}.

Record serviceMap : Type := {
  services : option (gmap string service);
  defaultService : option service
}.

(** The zero [serviceMap]: nil map, nil default service. *)
Definition newServiceMap : serviceMap :=
  {| services := None; defaultService := None |}.

Definition with_name (s : service) (n : string) : service :=
  {| name := n; rcvr := rcvr s; rcvrType := rcvrType s;
     methods := methods s; passReq := passReq s |}.

Definition with_methods (s : service) (ms : gmap string serviceMethod) : service :=
  {| name := name s; rcvr := rcvr s; rcvrType := rcvrType s;
     methods := ms; passReq := passReq s |}.

Definition with_services (m : serviceMap) (svcs : option (gmap string service)) : serviceMap :=
  {| services := svcs; defaultService := defaultService m |}.

Definition with_defaultService (m : serviceMap) (s : option service) : serviceMap :=
  {| services := services m; defaultService := s |}.

(** [m[k]] on a possibly nil map of pointers: nil when absent. *)
Definition mapGet {A} (m : option (gmap string A)) (k : string) : option A :=
  match m with
  | None => None
  | Some entries => entries !! k
  end.

(** [m[k] = v] on a possibly nil map. *)
Definition mapSet {R A} (m : option (gmap string A)) (k : string) (v : A)
  : step R (option (gmap string A)) :=
  match m with
  | None => Panicked NilMapWrite
  | Some entries => Next (Some (<[k := v]> entries))
  end.

Section Registry.

(** [unicode.IsUpper] reads the Unicode tables of the Go distribution; the
    registry is modelled over any such predicate on runes. *)
Variable IsUpper : rune -> bool.

(** isExported returns true of a string is an exported (upper case) name. *)
Definition isExported (name : string) : bool :=
  let '(inString, _) := DecodeRuneInString name in
  IsUpper inString.

(** The loop [for t.Kind() == reflect.Ptr { t = t.Elem() }]. *)
Fixpoint stripPtr (t : rtype) : rtype :=
  match t with
  | TPtr e => stripPtr e
  | TBase _ _ _ _ => t
  end.

(** isExportedOrBuiltin returns true if a type is exported or a builtin. *)
Definition isExportedOrBuiltin (t : rtype) : bool :=
  let t := stripPtr t in
  isExported (Name_of t) || (PkgPath_of t =? "").

(** One iteration of the method loop of [register] (lines 77-146):
    [Exit tt] is [continue], [Next sm] reaches the assignment to
    [s.methods[method.Name]] with the descriptor [sm]. *)
Definition scanMethod (passReq : bool) (method : Method) : step unit serviceMethod :=
  let mtype := Typ method in
  let paramOffset := if passReq then 1 else 0 in
  (* Method must be exported. *)
  if negb (PkgPath method =? "") then Exit tt else
  (* Method needs four ins: receiver, *http.Request, *args, *reply. *)
  if negb (NumIn mtype =? 3 + paramOffset)%nat then Exit tt else
  _ ← (if passReq then
         (* First argument must be a pointer and must be http.Request. *)
         reqType ← In_ mtype 1;
         if bool_decide (Kind_of reqType ≠ Ptr) then Exit tt else
         e ← Elem reqType;
         if bool_decide (e ≠ typeOfRequest) then Exit tt else Next tt
       else Next tt);
  (* Next argument must be a pointer and must be exported. *)
  args ← In_ mtype (1 + paramOffset);
  if bool_decide (Kind_of args ≠ Ptr) || negb (isExportedOrBuiltin args)
  then Exit tt else
  (* Next argument must be a pointer and must be exported. *)
  reply ← In_ mtype (2 + paramOffset);
  if bool_decide (Kind_of reply ≠ Ptr) || negb (isExportedOrBuiltin reply)
  then Exit tt else
  (* Method needs one out: error. *)
  if negb (NumOut mtype =? 1)%nat then Exit tt else
  returnType ← Out mtype 0;
  if bool_decide (returnType ≠ typeOfError) then Exit tt else
  argsElem ← Elem args;
  replyElem ← Elem reply;
  Next {| method := method; argsType := argsElem; replyType := replyElem |}.

(** The method loop: [Method(0)], [Method(1)], ... in order, each either
    skipped or stored under its name. *)
Fixpoint setupMethods (passReq : bool) (ms : list Method)
    (acc : gmap string serviceMethod) : outcome (gmap string serviceMethod) :=
  match ms with
  | [] => Ret acc
  | method :: rest =>
      match scanMethod passReq method with
      | Panicked p => Panic p
      | Exit _ => setupMethods passReq rest acc
      | Next sm => setupMethods passReq rest (<[Name method := sm]> acc)
      end
  end.

Definition result : Type := serviceMap * option error.

(** register adds a new service using reflection to extract its methods.
    The registry is passed in and returned with the error ([None] is the
    nil error); the primed names are the parameters [rcvr], [name] and
    [passReq], which the fields of [service] shadow. *)
Definition register (m : serviceMap) (rcvr' : iface) (name' : string)
    (passReq' isDefault : bool) : outcome result :=
  body (
    (* Setup service. *)
    let s := {| name := name';
                rcvr := reflect_ValueOf rcvr';
                rcvrType := reflect_TypeOf rcvr';
                methods := ∅;
                passReq := passReq' |} in
    s ← (if name' =? "" then
           t ← reflect_Indirect_Type (rcvr s);
           let s := with_name s (Name_of t) in
           if negb (isExported (name s))
           then Exit (m, Some (ErrTypeNotExported (name s)))
           else Next s
         else Next s);
    _ ← (if name s =? "" then
           T ← deref (rcvrType s);
           Exit (m, Some (ErrNoServiceName (String_of (typ T))))
         else Next tt);
    (* Setup methods. *)
    T ← deref (rcvrType s);
    ms ← call (setupMethods passReq' (methodSet T) (methods s));
    let s := with_methods s ms in
    _ ← (if (size (methods s) =? 0)%nat
         then Exit (m, Some (ErrNoSuitableMethods (name s)))
         else Next tt);
    (* Add to the map. *)
    if isDefault then
      Exit (with_defaultService m (Some s), None)
    else
      m ← (match services m with
           | None => Next (with_services m (Some ∅))
           | Some entries =>
               match entries !! name s with
               | Some _ => Exit (m, Some (ErrAlreadyDefined (name s)))
               | None => Next m
               end
           end);
      entries ← mapSet (services m) (name s) s;
      Exit (with_services m entries, None)).

End Registry.

Definition lookup_result : Type :=
  option service * option serviceMethod * option error.

(** get returns a registered service given a method name.
    The method name uses a dotted notation as in "Service.Method". *)
Definition get (m : serviceMap) (method : string) : outcome lookup_result :=
  body (
    let parts := strings_Split method "." in
    if negb (List.length parts =? 2)%nat && negb (List.length parts =? 1)%nat
    then Exit (None, None, Some (ErrIllFormed method)) else
    service ← (if (List.length parts =? 1)%nat
               then Next (defaultService m)
               else p0 ← index parts 0; Next (mapGet (services m) p0));
    (* log.Printf("wants to look for method %s.%s", service.name, method) *)
    _ ← (svc ← deref service; Next (name svc));
    match service with
    | None => Exit (None, None, Some (ErrNoService method))
    | Some svc =>
        serviceMethod ← (if (List.length parts =? 1)%nat
                         then p0 ← index parts 0; Next (methods svc !! p0)
                         else p1 ← index parts 1; Next (methods svc !! p1));
        match serviceMethod with
        | None => Exit (None, None, Some (ErrNoMethod method))
        | Some sm => Exit (Some svc, Some sm, None)
        end
    end).

(** ** The shape contract and the error kinds, in the words of the specification *)

Inductive ErrorKind : Set :=
| InvalidServiceName
| NoEligibleMethods
| DuplicateService
| MalformedMethodName
| ServiceNotFound
| MethodNotFound.

Definition kind_of (e : error) : ErrorKind :=
  match e with
  | ErrTypeNotExported _ => InvalidServiceName
  | ErrNoServiceName _ => InvalidServiceName
  | ErrNoSuitableMethods _ => NoEligibleMethods
  | ErrAlreadyDefined _ => DuplicateService
  | ErrIllFormed _ => MalformedMethodName
  | ErrNoService _ => ServiceNotFound
  | ErrNoMethod _ => MethodNotFound
  end.

(** The parameters of a method after its receiver. *)
Definition params (mth : Method) : list rtype := tail (ins (Typ mth)).

(** "A pointer to a type that is either publicly named or built-in":
    [t] is [*e] and [e] is exported or builtin. *)
Definition pointerToExportedOrBuiltin (IsUpper : rune -> bool) (t : rtype) : Prop :=
  ∃ e, t = TPtr e ∧ isExportedOrBuiltin IsUpper e = true.

(** The required shape of §4.1 for a given [passReq]:
    exported; [2 + (1 if passReq else 0)] parameters after the receiver;
    with [passReq], first [*http.Request]; then the argument and the
    reply, pointers to exported or builtin types; one result, [error]. *)
Definition conforms (IsUpper : rune -> bool) (passReq : bool) (mth : Method) : Prop :=
  PkgPath mth = "" ∧
  match passReq, params mth with
  | true, [req; args; reply] =>
      req = TPtr typeOfRequest ∧
      pointerToExportedOrBuiltin IsUpper args ∧
      pointerToExportedOrBuiltin IsUpper reply
  | false, [args; reply] =>
      pointerToExportedOrBuiltin IsUpper args ∧
      pointerToExportedOrBuiltin IsUpper reply
  | _, _ => False
  end ∧
  outs (Typ mth) = [typeOfError].

(** The descriptor the contract asks for: the method with the pointees of
    its argument and reply parameters. *)
Definition descriptorOf (passReq : bool) (mth : Method) (sm : serviceMethod) : Prop :=
  method sm = mth ∧
  ∃ args reply,
    drop (if passReq then 1 else 0) (params mth) = [args; reply] ∧
    args = TPtr (argsType sm) ∧ reply = TPtr (replyType sm).

(** The name a registration resolves to: the explicit one, or the name of
    the receiver's type behind at most one pointer. *)
Definition derivedName (r : iface) : option string :=
  match r with
  | NilIface => None
  | Iface T isNil =>
      match typ T with
      | TPtr e => if isNil then None else Some (Name_of e)
      | t => Some (Name_of t)
      end
  end.

(** A method name is bare when it has no dot. *)
Fixpoint dotFree (s : string) : bool :=
  match s with
  | EmptyString => true
  | String c rest => negb (Ascii.eqb c ".") && dotFree rest
  end.

(** ** Sample receivers *)

(** The upper-case letters of Latin-1, where [unicode.IsUpper] is a
    table lookup; used to run the model on the samples below. *)
Definition IsUpperLatin1 (r : rune) : bool :=
  ((65 <=? r) && (r <=? 90) || (192 <=? r) && (r <=? 214)
   || (216 <=? r) && (r <=? 222))%Z.

Definition tHelloService : rtype := TBase Struct "main" "HelloService" "main.HelloService".
Definition tUssdRequest : rtype := TBase Struct "main" "UssdRequest" "main.UssdRequest".
Definition tUssdResponse : rtype := TBase Struct "main" "UssdResponse" "main.UssdResponse".
Definition tWho : rtype := TBase Struct "" "" "struct { Who string }".
Definition tMessage : rtype := TBase Struct "" "" "struct { Message string }".
Definition tInt : rtype := TBase Int "" "int" "int".

(** [func (h *HelloService) UssdMessage(r *http.Request, args *UssdRequest, reply *UssdResponse) error] *)
Definition mUssdMessage : Method :=
  {| Name := "UssdMessage"; PkgPath := "";
     Typ := {| ins := [TPtr tHelloService; TPtr typeOfRequest; TPtr tUssdRequest; TPtr tUssdResponse];
               outs := [typeOfError] |} |}.

(** [func (h *HelloService) Say(r *http.Request, args *struct{Who string}, reply *struct{Message string}) error] *)
Definition mSay : Method :=
  {| Name := "Say"; PkgPath := "";
     Typ := {| ins := [TPtr tHelloService; TPtr typeOfRequest; TPtr tWho; TPtr tMessage];
               outs := [typeOfError] |} |}.

(** [new(HelloService)] *)
Definition helloType : rcvrTypeInfo :=
  {| typ := TPtr tHelloService; methodSet := [mSay; mUssdMessage] |}.
Definition helloService : iface := Iface helloType false.

(** A receiver in the shape of §8: [type Calc struct{}] with
    [func (c *Calc) Add(args *Args, reply *int) error] and a method
    [Reset()] of another shape. *)
Definition tCalc : rtype := TBase Struct "main" "Calc" "main.Calc".
Definition tArgs : rtype := TBase Struct "main" "Args" "main.Args".

Definition mAdd : Method :=
  {| Name := "Add"; PkgPath := "";
     Typ := {| ins := [TPtr tCalc; TPtr tArgs; TPtr tInt]; outs := [typeOfError] |} |}.

Definition mReset : Method :=
  {| Name := "Reset"; PkgPath := "";
     Typ := {| ins := [TPtr tCalc]; outs := [] |} |}.

Definition calcType : rcvrTypeInfo :=
  {| typ := TPtr tCalc; methodSet := [mAdd; mReset] |}.
Definition calc : iface := Iface calcType false.

(** [type plain struct{}] with the method [Reset] only. *)
Definition tPlain : rtype := TBase Struct "main" "plain" "main.plain".
Definition plainType : rcvrTypeInfo :=
  {| typ := TPtr tPlain; methodSet := [mReset] |}.
Definition plain : iface := Iface plainType false.

(** ** Looking a name up, in the words of §4.3

    Steps 1 and 2: the service a method name selects, [None] when the name
    is malformed; the inner [option] is the possibly absent service. *)
Definition selected (m : serviceMap) (method : string) : option (option service) :=
  match strings_Split method "." with
  | [_] => Some (defaultService m)
  | [p0; _] => Some (mapGet (services m) p0)
  | _ => None
  end.

(** Method names that [reflect] reports are Go identifiers: not empty and
    without a dot. *)
Definition identifier (s : string) : Prop := s ≠ "" ∧ dotFree s = true.

Definition wellNamed (r : iface) : Prop :=
  match r with
  | NilIface => True
  | Iface T _ => Forall (λ mth, identifier (Name mth)) (methodSet T)
  end.

(** The registries a program can build: the zero value, then any number
    of [register] calls that return. *)
Inductive reachable (IsUpper : rune -> bool) : serviceMap -> Prop :=
| reach_new : reachable IsUpper newServiceMap
| reach_register m r n p d m' e :
    reachable IsUpper m ->
    wellNamed r ->
    register IsUpper m r n p d = Ret (m', e) ->
    reachable IsUpper m'.

(** [m'] comes from [m] by any number of [register] calls that return,
    with or without an error. *)
Inductive extends (IsUpper : rune -> bool) (m : serviceMap) : serviceMap -> Prop :=
| extends_refl : extends IsUpper m m
| extends_step m' r n p d m'' e :
    extends IsUpper m m' ->
    register IsUpper m' r n p d = Ret (m'', e) ->
    extends IsUpper m m''.

(** A service as §3 wants it: at least one method, every method stored
    under an identifier. *)
Definition service_ok (s : service) : Prop :=
  methods s ≠ ∅ ∧ ∀ k sm, methods s !! k = Some sm → identifier k.

Definition registry_ok (m : serviceMap) : Prop :=
  (∀ s, defaultService m = Some s → service_ok s) ∧
  (∀ k s, mapGet (services m) k = Some s → name s = k ∧ service_ok s).

(** ** [register] step by step, in the words of §4.2 *)

(** The service a registration builds. *)
Definition mkService (r : iface) (sn : string) (p : bool)
    (ms : gmap string serviceMethod) : service :=
  {| name := sn; rcvr := reflect_ValueOf r; rcvrType := reflect_TypeOf r;
     methods := ms; passReq := p |}.

(** The service name of a registration: the explicit name, or the derived
    one when the explicit name is empty. *)
Definition serviceName (r : iface) (n : string) : option string :=
  if n =? "" then derivedName r else Some n.

(** §4.2 for a receiver that is not the nil interface: name, methods,
    then the default slot or the named map. *)
Definition Register (IsUpper : rune -> bool) (m : serviceMap) (T : rcvrTypeInfo)
    (isNil : bool) (n : string) (p d : bool) : outcome result :=
  let r := Iface T isNil in
  match serviceName r n with
  | None => Panic ZeroValueType
  | Some sn =>
      if (n =? "") && negb (isExported IsUpper sn)
      then Ret (m, Some (ErrTypeNotExported sn))
      else if sn =? ""
      then Ret (m, Some (ErrNoServiceName (String_of (typ T))))
      else
        match setupMethods IsUpper p (methodSet T) ∅ with
        | Panic pn => Panic pn
        | Ret ms =>
            let s := mkService r sn p ms in
            if (size ms =? 0)%nat
            then Ret (m, Some (ErrNoSuitableMethods sn))
            else if d
            then Ret (with_defaultService m (Some s), None)
            else
              match mapGet (services m) sn with
              | Some _ => Ret (m, Some (ErrAlreadyDefined sn))
              | None =>
                  Ret (with_services m
                         (Some (<[sn := s]> (default ∅ (services m)))), None)
              end
        end
  end.


(** Steps 4 and 5 of §4.3: the method [k] of a present service. *)
Definition methodOf (svc : service) (k method : string) : lookup_result :=
  match methods svc !! k with
  | None => (None, None, Some (ErrNoMethod method))
  | Some sm => (Some svc, Some sm, None)
  end.

(** §4.3 as written, with the presence check of step 3 before any use of
    the selected service. *)
Definition Resolve (m : serviceMap) (method : string) : lookup_result :=
  match strings_Split method "." with
  | [p0] =>
      match defaultService m with
      | None => (None, None, Some (ErrNoService method))
      | Some svc => methodOf svc p0 method
      end
  | [p0; p1] =>
      match mapGet (services m) p0 with
      | None => (None, None, Some (ErrNoService method))
      | Some svc => methodOf svc p1 method
      end
  | _ => (None, None, Some (ErrIllFormed method))
  end.


(** The checks of §4.2 that do not read the registry: the call has a
    usable service name [sn] and the method loop leaves the non-empty
    method set [ms]. *)
Definition validated (IsUpper : rune -> bool) (r : iface) (n : string) (p : bool)
    (sn : string) (ms : gmap string serviceMethod) : Prop :=
  ∃ T isNil,
    r = Iface T isNil ∧
    serviceName r n = Some sn ∧
    (n =? "") && negb (isExported IsUpper sn) = false ∧
    (sn =? "") = false ∧
    setupMethods IsUpper p (methodSet T) ∅ = Ret ms ∧
    (size ms =? 0)%nat = false.

(** The method set of a receiver; the nil interface has none. *)
Definition methodsOf (r : iface) : list Method :=
  match r with
  | NilIface => []
  | Iface T _ => methodSet T
  end.

(** The method set §4.1 asks for: exactly the descriptors of the
    conforming methods, each under the name of its method. *)
Definition installs (IsUpper : rune -> bool) (passReq : bool) (ms : list Method)
    (mp : gmap string serviceMethod) : Prop :=
  ∀ k sm,
    mp !! k = Some sm ↔
    ∃ mth, mth ∈ ms ∧ Name mth = k ∧
           conforms IsUpper passReq mth ∧ descriptorOf passReq mth sm.

(** Where a registration puts its service. *)
Definition stored (d : bool) (m : serviceMap) (s : service) : Prop :=
  if d then defaultService m = Some s
  else mapGet (services m) (name s) = Some s.


(** ** Sample registries *)

Definition addDescriptor : serviceMethod :=
  {| method := mAdd; argsType := tArgs; replyType := tInt |}.

Definition sayDescriptor : serviceMethod :=
  {| method := mSay; argsType := tWho; replyType := tMessage |}.

Definition ussdDescriptor : serviceMethod :=
  {| method := mUssdMessage; argsType := tUssdRequest; replyType := tUssdResponse |}.

(** [calc] registered under the explicit name ["Calc"]. *)
Definition calcService : service :=
  mkService calc "Calc" false {[ "Add" := addDescriptor ]}.

Definition calcRegistry : serviceMap :=
  {| services := Some {[ "Calc" := calcService ]}; defaultService := None |}.

(** [RegisterDefaultService(new(HelloService), "")], as the sample server does. *)
Definition helloDefault : service :=
  mkService helloService "HelloService" true
    (<[ "UssdMessage" := ussdDescriptor ]> {[ "Say" := sayDescriptor ]}).

Definition helloRegistry : serviceMap :=
  {| services := None; defaultService := Some helloDefault |}.

(** [calc] as the default service of [helloRegistry]. *)
Definition calcDefault : service :=
  mkService calc "Calc" false {[ "Add" := addDescriptor ]}.

(** [calc] under explicit names that §7 would call invalid or that hold a dot. *)
Definition lowerRegistry : serviceMap :=
  {| services := Some {[ "calc" := mkService calc "calc" false {[ "Add" := addDescriptor ]} ]};
     defaultService := None |}.

Definition dottedRegistry : serviceMap :=
  {| services := Some {[ "a.b" := mkService calc "a.b" false {[ "Add" := addDescriptor ]} ]};
     defaultService := None |}.


(** ** Notions for the properties beyond the claims *)

(** strings.Join(parts, sep) for a separator of one byte. *)
Fixpoint strings_Join (parts : list string) (sep : ascii) : string :=
  match parts with
  | [] => ""
  | p :: rest =>
      match rest with
      | [] => p
      | _ :: _ => p ++ String sep (strings_Join rest sep)
      end
  end.

(** strings.Count(s, sep) for a separator of one byte. *)
Fixpoint strings_Count (s : string) (sep : ascii) : nat :=
  match s with
  | EmptyString => 0
  | String c rest =>
      (if Ascii.eqb c sep then 1 else 0) + strings_Count rest sep
  end.

(** A receiver that is a nil pointer of some pointer type. *)
Definition nilPointer (r : iface) : Prop :=
  ∃ T e, r = Iface T true ∧ typ T = TPtr e.

(** What [register] leaves in a stored service: each descriptor sits
    under the name of its method, which is a method of the receiver's
    type and has the shape the service's [passReq] asks for. *)
Definition descriptor_wf (IsUpper : rune -> bool) (s : service) (k : string)
    (sm : serviceMethod) : Prop :=
  Name (method sm) = k ∧
  conforms IsUpper (passReq s) (method sm) ∧
  descriptorOf (passReq s) (method sm) sm ∧
  ∃ T, rcvrType s = Some T ∧ method sm ∈ methodSet T.

Definition service_wf (IsUpper : rune -> bool) (s : service) : Prop :=
  name s ≠ "" ∧
  methods s ≠ ∅ ∧
  is_Some (rcvrType s) ∧
  ∀ k sm, methods s !! k = Some sm → descriptor_wf IsUpper s k sm.

Definition registry_wf (IsUpper : rune -> bool) (m : serviceMap) : Prop :=
  (∀ s, defaultService m = Some s → service_wf IsUpper s) ∧
  (∀ k s, mapGet (services m) k = Some s → name s = k ∧ service_wf IsUpper s).

(** The sample server's receiver under its own name, beside [calc]. *)
Definition helloNamed : service :=
  mkService helloService "HelloService" true
    (<[ "UssdMessage" := ussdDescriptor ]> {[ "Say" := sayDescriptor ]}).

Definition calcThenHello : serviceMap :=
  {| services := Some (<[ "HelloService" := helloNamed ]> {[ "Calc" := calcService ]});
     defaultService := None |}.

Definition helloOnly : serviceMap :=
  {| services := Some {[ "HelloService" := helloNamed ]}; defaultService := None |}.

(** The nil pointer of the sample server's receiver type. *)
Definition helloNil : iface := Iface helloType true.

(** A pointer to a pointer to [Args], as a parameter type. *)
Definition tArgsPtrPtr : rtype := TPtr (TPtr tArgs).


(** * Properties *)

Section Splitting.

Lemma strings_Split_nonempty s sep : strings_Split s sep ≠ [].
Proof.
  destruct s as [|c rest]; simpl; [done|].
  destruct (Ascii.eqb c sep); [done|].
  by destruct (strings_Split rest sep).
Qed.

Lemma strings_Split_dotFree s :
  dotFree s = true → strings_Split s "." = [s].
Proof.
  induction s as [|c rest IH]; simpl; [done|].
  destruct (Ascii.eqb c "."); simpl; [done|].
  intros H. by rewrite (IH H).
Qed.

Lemma strings_Split_single s p :
  strings_Split s "." = [p] → p = s ∧ dotFree s = true.
Proof.
  revert p. induction s as [|c rest IH]; simpl; intros p.
  - by intros [= <-].
  - destruct (Ascii.eqb c ".") eqn:E; simpl.
    + intros [= _ H]. by destruct (strings_Split_nonempty _ _ H).
    + destruct (strings_Split rest ".") as [|q qs] eqn:Eq;
        [by destruct (strings_Split_nonempty _ _ Eq)|].
      intros [= <- ->]. destruct (IH _ eq_refl) as [-> Hd].
      by rewrite Hd.
Qed.

Lemma strings_Split_app n rest :
  dotFree n = true →
  strings_Split (n ++ String "." rest) "." = n :: strings_Split rest ".".
Proof.
  induction n as [|c n IH]; simpl; [done|].
  destruct (Ascii.eqb c "."); simpl; [done|].
  intros H. by rewrite (IH H).
Qed.

Lemma strings_Split_dotted n k :
  dotFree n = true → dotFree k = true →
  strings_Split (n ++ "." ++ k) "." = [n; k].
Proof.
  intros Hn Hk. change ("." ++ k) with (String "." k).
  by rewrite strings_Split_app, (strings_Split_dotFree k).
Qed.

End Splitting.

Section Shape.

Variable IsUpper : rune -> bool.

Lemma isExportedOrBuiltin_TPtr e :
  isExportedOrBuiltin IsUpper (TPtr e) = isExportedOrBuiltin IsUpper e.
Proof. reflexivity. Qed.

Ltac scan_cases :=
  repeat (simpl in *;
    match goal with
    | |- context [bool_decide ?P] => destruct (bool_decide_reflect P)
    | |- context [isExportedOrBuiltin IsUpper ?t] =>
        let E := fresh "Hexp" in destruct (isExportedOrBuiltin IsUpper t) eqn:E
    | |- context [Elem ?t] => is_var t; destruct t
    | |- context [Kind_of ?t] => is_var t; destruct t
    end).

Lemma scanMethod_Next passReq mth sm :
  scanMethod IsUpper passReq mth = Next sm →
  conforms IsUpper passReq mth ∧ descriptorOf passReq mth sm.
Proof.
  destruct mth as [nm pkg [i o]].
  unfold scanMethod, conforms, descriptorOf, params, pointerToExportedOrBuiltin.
  simpl.
  destruct (String.eqb_spec pkg ""); simpl; [|done].
  destruct passReq; simpl.
  - destruct i as [|r [|a1 [|a2 [|a3 [|a4 ?]]]]]; simpl; try done.
    destruct o as [|o1 [|o2 ?]]; unfold In_, Out, index, NumOut; simpl;
      scan_cases; try done.
    intros [= <-]; simpl.
    repeat match goal with H : ¬ _ ≠ _ |- _ => apply dec_stable in H end.
    subst. rewrite isExportedOrBuiltin_TPtr in *. naive_solver.
  - destruct i as [|r [|a2 [|a3 [|a4 ?]]]]; simpl; try done.
    destruct o as [|o1 [|o2 ?]]; unfold In_, Out, index, NumOut; simpl;
      scan_cases; try done.
    intros [= <-]; simpl.
    repeat match goal with H : ¬ _ ≠ _ |- _ => apply dec_stable in H end.
    subst. rewrite isExportedOrBuiltin_TPtr in *. naive_solver.
Qed.

Lemma scanMethod_conforms passReq mth :
  conforms IsUpper passReq mth →
  ∃ sm, scanMethod IsUpper passReq mth = Next sm.
Proof.
  destruct mth as [nm pkg [i o]].
  unfold scanMethod, conforms, params, pointerToExportedOrBuiltin. simpl.
  intros (-> & Hp & ->). simpl.
  destruct passReq; simpl.
  - destruct i as [|r [|a1 [|a2 [|a3 [|a4 ?]]]]]; simpl in Hp; try done.
    destruct Hp as (-> & (e2 & -> & H2) & (e3 & -> & H3)).
    unfold In_, Out, index, NumOut; simpl.
    rewrite !isExportedOrBuiltin_TPtr, H2, H3. simpl. eauto.
  - destruct i as [|r [|a2 [|a3 [|a4 ?]]]]; simpl in Hp; try done.
    destruct Hp as ((e2 & -> & H2) & (e3 & -> & H3)).
    unfold In_, Out, index, NumOut; simpl.
    rewrite !isExportedOrBuiltin_TPtr, H2, H3. simpl. eauto.
Qed.

(** No iteration of the method loop panics: every [In], [Out] and [Elem]
    is behind the test that makes it defined. *)
Lemma scanMethod_no_panic passReq mth p :
  scanMethod IsUpper passReq mth ≠ Panicked p.
Proof.
  destruct mth as [nm pkg [i o]]. unfold scanMethod. simpl.
  destruct (String.eqb_spec pkg ""); simpl; [|done].
  destruct passReq; simpl.
  - destruct i as [|r [|a1 [|a2 [|a3 [|a4 ?]]]]]; simpl; try done.
    destruct o as [|o1 [|o2 ?]]; unfold In_, Out, index, NumOut; simpl;
      scan_cases; unfold mbind, step_bind; simpl in *; try done; naive_solver.
  - destruct i as [|r [|a2 [|a3 [|a4 ?]]]]; simpl; try done.
    destruct o as [|o1 [|o2 ?]]; unfold In_, Out, index, NumOut; simpl;
      scan_cases; unfold mbind, step_bind; simpl in *; try done; naive_solver.
Qed.

(** The outcome of one iteration, by the contract. *)
Lemma scanMethod_cases passReq mth :
  (∃ sm, scanMethod IsUpper passReq mth = Next sm ∧
         conforms IsUpper passReq mth ∧ descriptorOf passReq mth sm) ∨
  (scanMethod IsUpper passReq mth = Exit tt ∧ ¬ conforms IsUpper passReq mth).
Proof.
  destruct (scanMethod IsUpper passReq mth) as [p|[]|sm] eqn:E.
  - by destruct (scanMethod_no_panic _ _ _ E).
  - right. split; [done|]. intros Hc.
    destruct (scanMethod_conforms _ _ Hc) as [sm Hsm]. congruence.
  - left. exists sm. split; [done|]. by apply scanMethod_Next.
Qed.

Lemma descriptorOf_unique passReq mth sm1 sm2 :
  descriptorOf passReq mth sm1 → descriptorOf passReq mth sm2 → sm1 = sm2.
Proof.
  intros (H1 & a1 & r1 & E1 & -> & ->) (H2 & a2 & r2 & E2 & -> & ->).
  destruct sm1, sm2; simpl in *. rewrite E1 in E2. by simplify_eq.
Qed.

End Shape.

Section MethodLoop.

Variable IsUpper : rune -> bool.

Lemma setupMethods_total passReq ms acc :
  ∃ mp, setupMethods IsUpper passReq ms acc = Ret mp.
Proof.
  revert acc. induction ms as [|mth ms IH]; intros acc; simpl; [eauto|].
  destruct (scanMethod_cases IsUpper passReq mth) as [(sm & -> & _)|[-> _]];
    apply IH.
Qed.

(** Keys that no later method is named after keep their entry. *)
Lemma setupMethods_other passReq ms acc mp k :
  setupMethods IsUpper passReq ms acc = Ret mp →
  k ∉ Name <$> ms → mp !! k = acc !! k.
Proof.
  revert acc. induction ms as [|mth ms IH]; intros acc; simpl.
  - by intros [= ->].
  - rewrite not_elem_of_cons. intros H [Hne Hk].
    destruct (scanMethod IsUpper passReq mth); [done| |].
    + by apply IH.
    + rewrite (IH _ H Hk). by apply lookup_insert_ne.
Qed.

(** Every entry the loop adds is the descriptor of a conforming method. *)
Lemma setupMethods_sound passReq ms acc mp k sm :
  setupMethods IsUpper passReq ms acc = Ret mp →
  mp !! k = Some sm →
  acc !! k = Some sm ∨
  ∃ mth, mth ∈ ms ∧ Name mth = k ∧
         conforms IsUpper passReq mth ∧ descriptorOf passReq mth sm.
Proof.
  revert acc. induction ms as [|mth ms IH]; intros acc; simpl.
  - intros [= ->]. by left.
  - intros H Hk.
    destruct (scanMethod_cases IsUpper passReq mth) as [(sm' & E & Hc & Hd)|[E _]];
      rewrite E in H.
    + destruct (IH _ H Hk) as [Hacc|(mth' & Hin & Hrest)].
      * rewrite lookup_insert in Hacc. case_decide.
        -- right. exists mth. simplify_eq. split; [left|done].
        -- by left.
      * right. exists mth'. split; [by right|done].
    + destruct (IH _ H Hk) as [Hacc|(mth' & Hin & Hrest)]; [by left|].
      right. exists mth'. split; [by right|done].
Qed.

(** With distinct method names (which a Go method set has), the entry of
    a conforming method is its own descriptor. *)
Lemma setupMethods_complete passReq ms acc mp mth sm :
  NoDup (Name <$> ms) →
  setupMethods IsUpper passReq ms acc = Ret mp →
  mth ∈ ms → conforms IsUpper passReq mth → descriptorOf passReq mth sm →
  mp !! Name mth = Some sm.
Proof.
  revert acc. induction ms as [|m0 ms IH]; intros acc; simpl.
  - intros _ _ H. by apply elem_of_nil in H.
  - rewrite NoDup_cons. intros [Hnotin Hnd] H Hin Hc Hd.
    apply elem_of_cons in Hin as [->|Hin].
    + destruct (scanMethod_cases IsUpper passReq m0)
        as [(sm' & E & _ & Hd')|[_ Hn]]; [|done].
      rewrite E in H. rewrite (setupMethods_other _ _ _ _ _ H Hnotin).
      rewrite lookup_insert_eq. f_equal. by eapply descriptorOf_unique.
    + destruct (scanMethod IsUpper passReq m0); [done| |]; by eapply IH.
Qed.

(** Without a conforming method the loop leaves the map as it was. *)
Lemma setupMethods_none passReq ms acc :
  (∀ mth, mth ∈ ms → ¬ conforms IsUpper passReq mth) →
  setupMethods IsUpper passReq ms acc = Ret acc.
Proof.
  induction ms as [|m0 ms IH]; simpl; [done|]. intros Hn.
  destruct (scanMethod_cases IsUpper passReq m0) as [(sm & _ & Hc & _)|[-> _]].
  - destruct (Hn m0); [left|done].
  - apply IH. intros mth Hin. apply Hn. by right.
Qed.

(** Distinct names tell the methods of a method set apart. *)
Lemma NoDup_Name_inj (ms : list Method) a b :
  NoDup (Name <$> ms) → a ∈ ms → b ∈ ms → Name a = Name b → a = b.
Proof.
  induction ms as [|m0 ms IH]; simpl.
  - intros _ H. by apply elem_of_nil in H.
  - rewrite NoDup_cons. intros [Hnotin Hnd] Ha Hb Hab.
    apply elem_of_cons in Ha as [->|Ha]; apply elem_of_cons in Hb as [->|Hb].
    + done.
    + destruct Hnotin. rewrite Hab. by apply list_elem_of_fmap_2.
    + destruct Hnotin. rewrite <- Hab. by apply list_elem_of_fmap_2.
    + by apply IH.
Qed.

(** An entry, once in the map, stays (a later method of the same name
    replaces its value). *)
Lemma setupMethods_keeps passReq ms acc mp k :
  setupMethods IsUpper passReq ms acc = Ret mp →
  is_Some (acc !! k) → is_Some (mp !! k).
Proof.
  revert acc. induction ms as [|mth ms IH]; intros acc; simpl.
  - by intros [= ->].
  - intros H Hk. destruct (scanMethod IsUpper passReq mth); [done| |].
    + by eapply IH.
    + eapply IH; [done|]. rewrite lookup_insert. case_decide; eauto.
Qed.

(** Every conforming method gets its name into the map. *)
Lemma setupMethods_present passReq ms acc mp mth :
  setupMethods IsUpper passReq ms acc = Ret mp →
  mth ∈ ms → conforms IsUpper passReq mth → is_Some (mp !! Name mth).
Proof.
  revert acc. induction ms as [|m0 ms IH]; intros acc; simpl.
  - intros _ H. by apply elem_of_nil in H.
  - intros H Hin Hc. apply elem_of_cons in Hin as [->|Hin].
    + destruct (scanMethod_conforms IsUpper _ _ Hc) as [sm E]. rewrite E in H.
      eapply setupMethods_keeps; [done|]. rewrite lookup_insert_eq. eauto.
    + destruct (scanMethod IsUpper passReq m0); [done| |]; by eapply IH.
Qed.

End MethodLoop.

Section RegisterSteps.

Variable IsUpper : rune -> bool.

(** [register] on a receiver that is not the nil interface takes the
    steps of §4.2. *)
Lemma register_Register m T isNil n p d :
  register IsUpper m (Iface T isNil) n p d = Register IsUpper m T isNil n p d.
Proof.
  unfold register, Register, serviceName, derivedName. simpl.
  destruct (String.eqb_spec n "") as [->|Hn]; simpl.
  - destruct T as [[k pp nn ss|e] mset]; simpl.
    + destruct (isExported IsUpper nn) eqn:Hex; simpl; [|done].
      destruct (String.eqb_spec nn "") as [->|Hnn]; simpl; [done|].
      destruct (setupMethods_total IsUpper p mset ∅) as [ms ->]; simpl.
      destruct (size ms =? 0)%nat; simpl; [done|].
      destruct d; simpl; [done|].
      destruct m as [[entries|] dflt]; simpl; [|done].
      by destruct (entries !! nn).
    + destruct isNil; simpl; [done|].
      destruct (isExported IsUpper (Name_of e)) eqn:Hex; simpl; [|done].
      destruct (String.eqb_spec (Name_of e) "") as [E|Hnn]; simpl; [done|].
      destruct (setupMethods_total IsUpper p mset ∅) as [ms ->]; simpl.
      destruct (size ms =? 0)%nat; simpl; [done|].
      destruct d; simpl; [done|].
      destruct m as [[entries|] dflt]; simpl; [|done].
      by destruct (entries !! Name_of e).
  - destruct (String.eqb_spec n "") as [->|_]; [done|]; simpl.
    destruct (setupMethods_total IsUpper p (methodSet T) ∅) as [ms ->]; simpl.
    destruct (size ms =? 0)%nat; simpl; [done|].
    destruct d; simpl; [done|].
    destruct m as [[entries|] dflt]; simpl; [|done].
    by destruct (entries !! n).
Qed.

(** The nil interface has no type to look at: [register] panics on it. *)
Lemma register_nil m n p d :
  ∃ pn, register IsUpper m NilIface n p d = Panic pn.
Proof.
  unfold register. simpl. destruct (n =? "") eqn:E; simpl; [eauto|].
  rewrite E. simpl. eauto.
Qed.

End RegisterSteps.

Section Lookup.

(** Where the selected service is present, or the name is malformed,
    [get] returns what §4.3 asks for. *)
Lemma get_Resolve m method :
  selected m method ≠ Some None → get m method = Ret (Resolve m method).
Proof.
  unfold selected, get, Resolve, methodOf.
  destruct (strings_Split method ".") as [|p0 [|p1 [|p2 ps]]] eqn:E; simpl;
    [done| | |done].
  - destruct (defaultService m) as [svc|]; simpl; [|done].
    intros _. unfold index; simpl. by destruct (methods svc !! p0).
  - unfold index; simpl.
    destruct (mapGet (services m) p0) as [svc|]; simpl; [|done].
    intros _. by destruct (methods svc !! p1).
Qed.

(** Where the selected service is absent, [get] reads [service.name]
    through the nil pointer before it tests the pointer. *)
Lemma get_absent m method :
  selected m method = Some None → get m method = Panic NilDereference.
Proof.
  unfold selected, get.
  destruct (strings_Split method ".") as [|p0 [|p1 [|p2 ps]]] eqn:E; simpl;
    [done| | |done].
  - by intros [= ->].
  - unfold index; simpl. by intros [= ->].
Qed.

Lemma selected_bare m method :
  dotFree method = true → selected m method = Some (defaultService m).
Proof. intros H. unfold selected. by rewrite strings_Split_dotFree. Qed.

Lemma selected_dotted m n k :
  dotFree n = true → dotFree k = true →
  selected m (n ++ "." ++ k) = Some (mapGet (services m) n).
Proof. intros Hn Hk. unfold selected. by rewrite strings_Split_dotted. Qed.

(** A bare name is looked up in the default service. *)
Lemma get_bare m svc method :
  dotFree method = true → defaultService m = Some svc →
  get m method = Ret (methodOf svc method method).
Proof.
  intros Hb Hd. rewrite get_Resolve.
  - unfold Resolve. by rewrite strings_Split_dotFree, Hd.
  - rewrite selected_bare, Hd; done.
Qed.

(** A dotted name is looked up in the service named before the dot. *)
Lemma get_dotted m svc n k :
  dotFree n = true → dotFree k = true → mapGet (services m) n = Some svc →
  get m (n ++ "." ++ k) = Ret (methodOf svc k (n ++ "." ++ k)).
Proof.
  intros Hn Hk Hs. rewrite get_Resolve.
  - unfold Resolve. by rewrite strings_Split_dotted, Hs.
  - rewrite selected_dotted, Hs; done.
Qed.

End Lookup.

Section Invariant.

Variable IsUpper : rune -> bool.

Lemma size_eqb_0 {A} (ms : gmap string A) :
  (size ms =? 0)%nat = false → ms ≠ ∅.
Proof.
  intros H ->. rewrite map_size_empty in H. done.
Qed.

(** A successful call leaves a well-formed registry well formed. *)
Lemma register_ok m r n p d m' e :
  registry_ok m → wellNamed r →
  register IsUpper m r n p d = Ret (m', e) → registry_ok m'.
Proof.
  intros [Hdef Hnamed] Hwn.
  destruct r as [|T isNil].
  { destruct (register_nil IsUpper m n p d) as [pn ->]. done. }
  rewrite register_Register. unfold Register.
  destruct (serviceName (Iface T isNil) n) as [sn|]; [|done].
  destruct ((n =? "") && negb (isExported IsUpper sn)); [by intros [= <- _]|].
  destruct (sn =? ""); [by intros [= <- _]|].
  destruct (setupMethods IsUpper p (methodSet T) ∅) as [|ms] eqn:Hms; [done|].
  destruct (size ms =? 0)%nat eqn:Hsz; [by intros [= <- _]|].
  assert (service_ok (mkService (Iface T isNil) sn p ms)) as Hs.
  { split; simpl; [by apply size_eqb_0|].
    intros k sm Hk.
    destruct (setupMethods_sound _ _ _ _ _ _ _ Hms Hk) as [?|(mth & Hin & <- & _)];
      [done|].
    simpl in Hwn. rewrite Forall_forall in Hwn. by apply Hwn. }
  destruct d.
  - intros [= <- _]. split; simpl; [by intros s [= <-]|done].
  - destruct (mapGet (services m) sn) eqn:Hsn; [by intros [= <- _]|].
    intros [= <- _]. split; simpl; [done|].
    intros k s. rewrite lookup_insert. case_decide as Hk.
    + by intros [= <-].
    + intros Hl. apply Hnamed. destruct (services m); simpl in *; [done|].
      by rewrite lookup_empty in Hl.
Qed.

Lemma reachable_ok m : reachable IsUpper m → registry_ok m.
Proof.
  induction 1 as [|m r n p d m' e _ IH Hwn Hreg].
  - split; simpl; done.
  - by eapply register_ok.
Qed.

End Invariant.

Section RegisterOutcomes.

Variable IsUpper : rune -> bool.

(** The method loop leaves an empty map exactly when no method conforms. *)
Lemma setupMethods_size passReq ms mp :
  setupMethods IsUpper passReq ms ∅ = Ret mp →
  (size mp =? 0)%nat = false ↔ ∃ mth, mth ∈ ms ∧ conforms IsUpper passReq mth.
Proof.
  intros Hmp. split.
  - intros Hsz. apply size_eqb_0 in Hsz.
    destruct (map_choose _ Hsz) as (k & sm & Hk).
    destruct (setupMethods_sound _ _ _ _ _ _ _ Hmp Hk) as [H|(mth & ? & _ & ? & _)];
      [by rewrite lookup_empty in H|eauto].
  - intros (mth & Hin & Hc).
    destruct (setupMethods_present _ _ _ _ _ _ Hmp Hin Hc) as [sm Hsm].
    destruct (size mp =? 0)%nat eqn:E; [|done].
    apply Nat.eqb_eq, map_size_empty_iff in E. subst.
    by rewrite lookup_empty in Hsm.
Qed.


(** A call that passes the checks is decided by the slot it writes. *)
Lemma register_validated m r n p d sn ms :
  validated IsUpper r n p sn ms →
  register IsUpper m r n p d =
    let s := mkService r sn p ms in
    if d then Ret (with_defaultService m (Some s), None)
    else match mapGet (services m) sn with
         | Some _ => Ret (m, Some (ErrAlreadyDefined sn))
         | None =>
             Ret (with_services m (Some (<[sn := s]> (default ∅ (services m)))),
                  None)
         end.
Proof.
  intros (T & isNil & -> & Hsn & Hex & Hne & Hms & Hsz).
  rewrite register_Register. unfold Register.
  by rewrite Hsn, Hex, Hne, Hms, Hsz.
Qed.

(** A call that returns without error has passed the checks. *)
Lemma register_success m r n p d m' :
  register IsUpper m r n p d = Ret (m', None) →
  ∃ sn ms, validated IsUpper r n p sn ms.
Proof.
  destruct r as [|T isNil].
  { destruct (register_nil IsUpper m n p d) as [pn ->]. done. }
  rewrite register_Register. unfold Register, validated.
  destruct (serviceName (Iface T isNil) n) as [sn|] eqn:Hsn; [|done].
  destruct ((n =? "") && negb (isExported IsUpper sn)) eqn:Hex; [done|].
  destruct (sn =? "") eqn:Hne; [done|].
  destruct (setupMethods IsUpper p (methodSet T) ∅) as [|ms] eqn:Hms; [done|].
  destruct (size ms =? 0)%nat eqn:Hsz; [done|].
  intros _. exists sn, ms, T, isNil. done.
Qed.

Lemma validated_installs r n p sn ms :
  NoDup (Name <$> methodsOf r) →
  validated IsUpper r n p sn ms → installs IsUpper p (methodsOf r) ms.
Proof.
  intros Hnd (T & isNil & -> & _ & _ & _ & Hms & _) k sm. simpl in *. split.
  - intros Hk. destruct (setupMethods_sound _ _ _ _ _ _ _ Hms Hk) as [H|H];
      [by rewrite lookup_empty in H|done].
  - intros (mth & Hin & <- & Hc & Hd). by eapply setupMethods_complete.
Qed.

(** No call replaces or removes a named service. *)
Lemma register_keeps_named m r n p d m' e k svc :
  register IsUpper m r n p d = Ret (m', e) →
  mapGet (services m) k = Some svc → mapGet (services m') k = Some svc.
Proof.
  intros Hreg Hk. destruct r as [|T isNil].
  { destruct (register_nil IsUpper m n p d) as [pn Hp]. congruence. }
  rewrite register_Register in Hreg. unfold Register in Hreg.
  destruct (serviceName (Iface T isNil) n) as [sn|]; [|done].
  destruct ((n =? "") && negb (isExported IsUpper sn)); [by simplify_eq|].
  destruct (sn =? ""); [by simplify_eq|].
  destruct (setupMethods IsUpper p (methodSet T) ∅) as [|ms]; [done|].
  destruct (size ms =? 0)%nat; [by simplify_eq|].
  destruct d; [by simplify_eq|].
  destruct (mapGet (services m) sn) eqn:Hsn; simplify_eq; [done|]. simpl.
  rewrite lookup_insert_ne; [|congruence].
  by destruct (services m).
Qed.

Lemma extends_keeps_named m m' k svc :
  extends IsUpper m m' →
  mapGet (services m) k = Some svc → mapGet (services m') k = Some svc.
Proof.
  induction 1 as [|m' r n p d m'' e _ IH Hreg]; [done|].
  intros Hk. eapply register_keeps_named; [done|]. by apply IH.
Qed.

End RegisterOutcomes.

(** * The claims *)

Section Claims.

Variable IsUpper : rune -> bool.

(** C1.  Where the selected service is absent (an unregistered service
    before the dot, or a bare name without a default service), §4.3 asks
    for the ServiceNotFound error; [get] instead dereferences the nil
    service for its log line and panics, so the error is never returned. *)
Theorem get_absent_service_faults m method :
  selected m method = Some None →
  get m method = Panic NilDereference ∧
  Resolve m method = (None, None, Some (ErrNoService method)).
Proof.
  intros H. split; [by apply get_absent|].
  unfold selected in H. unfold Resolve.
  destruct (strings_Split method ".") as [|p0 [|p1 [|p2 ps]]]; simplify_eq;
    by rewrite H.
Qed.

(** C7.  A name that splits into neither one nor two parts is answered
    with the malformed-name error whatever the registry holds: no slot of
    the registry is read. *)
Theorem get_malformed m method :
  List.length (strings_Split method ".") ≠ 1%nat →
  List.length (strings_Split method ".") ≠ 2%nat →
  get m method = Ret (None, None, Some (ErrIllFormed method)) ∧
  kind_of (ErrIllFormed method) = MalformedMethodName.
Proof.
  intros H1 H2. split; [|done]. unfold get.
  destruct (strings_Split method ".") as [|p0 [|p1 [|p2 ps]]]; simpl in *; done.
Qed.

(** C10.  The empty name is one part, the empty string: [get] looks the
    method [""] up in the default service, and in a registry built by
    [register] from receivers with Go method names no service has such a
    method, so the answer is the method-not-found error. *)
Theorem get_empty_name m svc :
  reachable IsUpper m → defaultService m = Some svc →
  strings_Split "" "." = [""] ∧
  selected m "" = Some (Some svc) ∧
  get m "" = Ret (None, None, Some (ErrNoMethod "")) ∧
  kind_of (ErrNoMethod "") = MethodNotFound.
Proof.
  intros Hr Hd. split; [done|]. split; [by rewrite selected_bare, Hd|].
  split; [|done]. rewrite (get_bare m svc); [|done..]. unfold methodOf.
  destruct (methods svc !! "") as [sm|] eqn:E; [|done].
  destruct (reachable_ok _ _ Hr) as [Hok _].
  destruct (Hok _ Hd) as [_ Hid]. by destruct (Hid _ _ E).
Qed.


(** C3.  After a default registration, a second default registration of
    any receiver that can be registered as default at all (it succeeds on
    the zero registry) succeeds: nothing in the registry is consulted, the
    default slot is overwritten with the new service, the named services
    stay, and a bare name then resolves in the new service only: to its
    method of that name, or to the method-not-found error. *)
Theorem register_default_twice m0 r1 n1 p1 m1 r2 n2 p2 mE :
  register IsUpper m0 r1 n1 p1 true = Ret (m1, None) →
  register IsUpper newServiceMap r2 n2 p2 true = Ret (mE, None) →
  ∃ s1 s2 m2,
    defaultService m1 = Some s1 ∧
    defaultService mE = Some s2 ∧
    register IsUpper m1 r2 n2 p2 true = Ret (m2, None) ∧
    defaultService m2 = Some s2 ∧
    services m2 = services m1 ∧
    ∀ method, List.length (strings_Split method ".") = 1%nat →
      get m2 method = Ret (methodOf s2 method method).
Proof.
  intros H1 H2.
  destruct (register_success _ _ _ _ _ _ _ H1) as (sn1 & ms1 & Hv1).
  destruct (register_success _ _ _ _ _ _ _ H2) as (sn2 & ms2 & Hv2).
  rewrite (register_validated _ _ _ _ _ true _ _ Hv1) in H1.
  rewrite (register_validated _ _ _ _ _ true _ _ Hv2) in H2.
  simpl in *. simplify_eq.
  eexists _, (mkService r2 sn2 p2 ms2), _. split; [done|]. split; [done|].
  split; [by rewrite (register_validated _ _ _ _ _ true _ _ Hv2)|].
  split; [done|]. split; [done|].
  intros method Hb. apply get_bare; [|done].
  destruct (strings_Split method ".") as [|part [|part' parts]] eqn:E;
    [done| |done].
  by destruct (strings_Split_single _ _ E).
Qed.

(** C4.  In a registry that holds a service [S] under the name [N], a
    non-default registration under [N] of a receiver that can be
    registered at all (it succeeds on the zero registry) fails with the
    already-defined error and returns the registry as it was; [S] is
    still what [N] selects, and each method of [S] resolves by its dotted
    name as far as the names have no dot of their own. *)
Theorem register_duplicate m S N r n p mE :
  mapGet (services m) N = Some S →
  serviceName r n = Some N →
  register IsUpper newServiceMap r n p false = Ret (mE, None) →
  ∃ m',
    register IsUpper m r n p false = Ret (m', Some (ErrAlreadyDefined N)) ∧
    kind_of (ErrAlreadyDefined N) = DuplicateService ∧
    m' = m ∧
    mapGet (services m') N = Some S ∧
    ∀ M sm, dotFree N = true → dotFree M = true → methods S !! M = Some sm →
      get m' (N ++ "." ++ M) = Ret (Some S, Some sm, None).
Proof.
  intros HS Hsn HE.
  destruct (register_success _ _ _ _ _ _ _ HE) as (sn & ms & Hv).
  assert (sn = N) as ->.
  { destruct Hv as (T & isNil & -> & Hsn' & _). congruence. }
  exists m. split.
  { rewrite (register_validated _ _ _ _ _ false _ _ Hv). simpl. by rewrite HS. }
  do 3 (split; [done|]).
  intros M sm HN HM Hsm. rewrite (get_dotted m S); [|done..].
  unfold methodOf. by rewrite Hsm.
Qed.

(** C5 (amended).  For a receiver that is not nil, with a usable service
    name [sn] (the explicit name, or the exported type name when none is
    given) and no method that passes the shape checks, [register] fails
    with the no-suitable-methods error, which carries the service name
    [sn], and returns the registry as it was. *)
Theorem register_no_methods m T isNil n p d sn :
  serviceName (Iface T isNil) n = Some sn →
  sn ≠ "" →
  (n = "" → isExported IsUpper sn = true) →
  (∀ mth, mth ∈ methodSet T → ¬ conforms IsUpper p mth) →
  register IsUpper m (Iface T isNil) n p d =
    Ret (m, Some (ErrNoSuitableMethods sn)) ∧
  kind_of (ErrNoSuitableMethods sn) = NoEligibleMethods.
Proof.
  intros Hsn Hne Hex Hnone. split; [|done].
  rewrite register_Register. unfold Register. rewrite Hsn.
  rewrite (setupMethods_none _ _ _ _ Hnone). simpl.
  destruct (String.eqb_spec sn "") as [->|_]; [done|].
  destruct (String.eqb_spec n "") as [->|_]; simpl; [|done].
  by rewrite Hex.
Qed.

(** C6 (amended).  With an empty explicit name, a derived type name that
    is empty or does not start with an upper-case letter makes [register]
    fail with an invalid-service-name error and return the registry as it
    was; an explicit name that is not empty is never refused as a name. *)
Theorem register_invalid_name m r p d :
  (∀ sn, derivedName r = Some sn →
         sn = "" ∨ isExported IsUpper sn = false →
         ∃ e, register IsUpper m r "" p d = Ret (m, Some e) ∧
              kind_of e = InvalidServiceName) ∧
  (∀ n m' e, n ≠ "" →
         register IsUpper m r n p d = Ret (m', Some e) →
         kind_of e ≠ InvalidServiceName).
Proof.
  split.
  - intros sn Hd Hbad. destruct r as [|T isNil]; [done|].
    rewrite register_Register. unfold Register, serviceName. simpl String.eqb.
    cbv iota. rewrite Hd. simpl.
    destruct (isExported IsUpper sn) eqn:Hex; simpl; [|by eexists].
    destruct Hbad as [->|?]; [|done]. simpl. by eexists.
  - intros n m' e Hn. destruct r as [|T isNil].
    { destruct (register_nil IsUpper m n p d) as [pn ->]. done. }
    apply String.eqb_neq in Hn.
    rewrite register_Register. unfold Register, serviceName.
    rewrite Hn. simpl. rewrite Hn.
    destruct (setupMethods IsUpper p (methodSet T) ∅) as [|ms]; [done|].
    destruct (size ms =? 0)%nat; [by intros [= _ <-]|].
    destruct d; [done|].
    destruct (mapGet (services m) n); [by intros [= _ <-]|done].
Qed.

(** C8 (amended).  After a successful non-default registration under a
    service name [N] without a dot, each conforming method [M] of the
    receiver resolves by ["N.M"] to the service that the registration
    stored under [N] and to the descriptor of [M] in its method set, with
    the pointees of the argument and reply parameters as shapes; and so
    it does after any further calls of [register]. *)
Theorem register_get_roundtrip m r n p m' N mth :
  register IsUpper m r n p false = Ret (m', None) →
  serviceName r n = Some N →
  dotFree N = true →
  NoDup (Name <$> methodsOf r) →
  mth ∈ methodsOf r →
  dotFree (Name mth) = true →
  conforms IsUpper p mth →
  ∃ s sm,
    mapGet (services m') N = Some s ∧
    name s = N ∧ passReq s = p ∧ rcvr s = reflect_ValueOf r ∧
    methods s !! Name mth = Some sm ∧
    descriptorOf p mth sm ∧
    ∀ m'', extends IsUpper m' m'' →
      get m'' (N ++ "." ++ Name mth) = Ret (Some s, Some sm, None).
Proof.
  intros Hreg Hsn HN Hnd Hin HM Hc.
  destruct (register_success _ _ _ _ _ _ _ Hreg) as (sn & ms & Hv).
  assert (sn = N) as ->.
  { destruct Hv as (T & isNil & -> & Hsn' & _). congruence. }
  rewrite (register_validated _ _ _ _ _ false _ _ Hv) in Hreg. simpl in Hreg.
  destruct (mapGet (services m) N) eqn:Hfree; simplify_eq.
  pose proof (validated_installs _ _ _ _ _ _ Hnd Hv) as Hinst.
  destruct (scanMethod_cases IsUpper p mth) as [(sm & _ & _ & Hd)|[_ ?]]; [|done].
  assert (ms !! Name mth = Some sm) as Hsm by (apply Hinst; eauto).
  exists (mkService r N p ms), sm. simpl.
  rewrite lookup_insert_eq. do 6 (split; [done|]).
  intros m'' Hext.
  rewrite (get_dotted _ (mkService r N p ms)); [|done|done|].
  - unfold methodOf. simpl. by rewrite Hsm.
  - eapply extends_keeps_named; [done|]. simpl. by rewrite lookup_insert_eq.
Qed.

(** C9.  A successful default registration writes the default slot and
    leaves the map of named services as it was; a successful non-default
    registration writes the entry of its own name, which was free, and
    leaves the default slot and every other entry as they were. *)
Theorem register_frame m r n p d m' :
  register IsUpper m r n p d = Ret (m', None) →
  ∃ s, stored d m' s ∧
       if d then services m' = services m
       else defaultService m' = defaultService m ∧
            serviceName r n = Some (name s) ∧
            mapGet (services m) (name s) = None ∧
            ∀ k, k ≠ name s → mapGet (services m') k = mapGet (services m) k.
Proof.
  intros Hreg.
  destruct (register_success _ _ _ _ _ _ _ Hreg) as (sn & ms & Hv).
  rewrite (register_validated _ _ _ _ _ d _ _ Hv) in Hreg. simpl in Hreg.
  exists (mkService r sn p ms). unfold stored. destruct d; [by simplify_eq|].
  destruct (mapGet (services m) sn) eqn:Hfree; simplify_eq. simpl.
  rewrite lookup_insert_eq. split; [done|]. split; [done|].
  split; [by destruct Hv as (T & isNil & -> & ? & _)|]. split; [done|].
  intros k Hk. rewrite lookup_insert_ne; [|done].
  destruct (services m); simpl; [done|]. by rewrite lookup_empty.
Qed.

End Claims.

(** * The claims on the sample receivers *)

(** What the model computes on the samples. *)
Lemma register_calc :
  register IsUpperLatin1 newServiceMap calc "Calc" false false =
    Ret (calcRegistry, None).
Proof. vm_compute. reflexivity. Qed.

Lemma register_hello :
  register IsUpperLatin1 newServiceMap helloService "" true true =
    Ret (helloRegistry, None).
Proof. vm_compute. reflexivity. Qed.

Lemma conforms_mAdd : conforms IsUpperLatin1 false mAdd.
Proof.
  split; [done|]. split; [|done]. split; eexists; split; reflexivity.
Qed.

Lemma not_conforms_mReset p : ¬ conforms IsUpperLatin1 p mReset.
Proof. intros (_ & H & _). by destruct p. Qed.

Lemma reachable_helloRegistry : reachable IsUpperLatin1 helloRegistry.
Proof.
  apply (reach_register _ newServiceMap helloService "" true true helloRegistry None).
  - constructor.
  - repeat constructor; done.
  - exact register_hello.
Qed.

(** C1 on the zero registry and the name ["Foo.Bar"] of §8. *)
Lemma get_absent_service_faults_witness :
  selected newServiceMap "Foo.Bar" = Some None ∧
  get newServiceMap "Foo.Bar" = Panic NilDereference ∧
  Resolve newServiceMap "Foo.Bar" = (None, None, Some (ErrNoService "Foo.Bar")).
Proof.
  split; [reflexivity|]. apply get_absent_service_faults. reflexivity.
Defined.

(** C7 on ["A.B.C"], in a registry where a lookup would panic. *)
Lemma get_malformed_witness :
  List.length (strings_Split "A.B.C" ".") = 3%nat ∧
  get newServiceMap "A.B.C" = Ret (None, None, Some (ErrIllFormed "A.B.C")) ∧
  kind_of (ErrIllFormed "A.B.C") = MalformedMethodName.
Proof.
  split; [reflexivity|]. apply get_malformed; simpl; lia.
Defined.

(** C10 in the registry of the sample server. *)
Lemma get_empty_name_witness :
  defaultService helloRegistry = Some helloDefault ∧
  strings_Split "" "." = [""] ∧
  selected helloRegistry "" = Some (Some helloDefault) ∧
  get helloRegistry "" = Ret (None, None, Some (ErrNoMethod "")) ∧
  kind_of (ErrNoMethod "") = MethodNotFound.
Proof.
  split; [reflexivity|].
  apply (get_empty_name IsUpperLatin1 helloRegistry helloDefault).
  - exact reachable_helloRegistry.
  - reflexivity.
Defined.


(** C3: [calc] becomes the default service after [helloService]. *)
Lemma register_default_twice_witness :
  ∃ s1 s2 m2,
    defaultService helloRegistry = Some s1 ∧
    defaultService (with_defaultService newServiceMap (Some calcDefault)) = Some s2 ∧
    register IsUpperLatin1 helloRegistry calc "" false true = Ret (m2, None) ∧
    defaultService m2 = Some s2 ∧
    services m2 = services helloRegistry ∧
    ∀ method, List.length (strings_Split method ".") = 1%nat →
      get m2 method = Ret (methodOf s2 method method).
Proof.
  apply (register_default_twice IsUpperLatin1 newServiceMap helloService ""
           true helloRegistry calc "" false).
  - exact register_hello.
  - vm_compute. reflexivity.
Defined.

(** C4: [helloService] under the name ["Calc"], which [calc] holds. *)
Lemma register_duplicate_witness :
  mapGet (services calcRegistry) "Calc" = Some calcService ∧
  ∃ m',
    register IsUpperLatin1 calcRegistry helloService "Calc" true false =
      Ret (m', Some (ErrAlreadyDefined "Calc")) ∧
    kind_of (ErrAlreadyDefined "Calc") = DuplicateService ∧
    m' = calcRegistry ∧
    mapGet (services m') "Calc" = Some calcService ∧
    ∀ M sm, dotFree "Calc" = true → dotFree M = true →
      methods calcService !! M = Some sm →
      get m' ("Calc" ++ "." ++ M) = Ret (Some calcService, Some sm, None).
Proof.
  split; [reflexivity|].
  eapply (register_duplicate IsUpperLatin1 calcRegistry calcService "Calc"
            helloService "Calc" true).
  - reflexivity.
  - reflexivity.
  - vm_compute. reflexivity.
Defined.

(** C5 (amended) on [plain] under the explicit name ["Calc"]. *)
Lemma register_no_methods_witness :
  register IsUpperLatin1 newServiceMap plain "Calc" false false =
    Ret (newServiceMap, Some (ErrNoSuitableMethods "Calc")) ∧
  kind_of (ErrNoSuitableMethods "Calc") = NoEligibleMethods.
Proof.
  apply (register_no_methods IsUpperLatin1 newServiceMap plainType false "Calc"
           false false "Calc").
  - reflexivity.
  - discriminate.
  - discriminate.
  - intros mth Hin. apply list_elem_of_singleton in Hin as ->.
    apply not_conforms_mReset.
Defined.

(** C6 (amended) on [plain], whose type name is not exported. *)
Lemma register_invalid_name_witness :
  derivedName plain = Some "plain" ∧
  isExported IsUpperLatin1 "plain" = false ∧
  ∃ e, register IsUpperLatin1 newServiceMap plain "" false false =
         Ret (newServiceMap, Some e) ∧
       kind_of e = InvalidServiceName.
Proof.
  split; [reflexivity|]. split; [reflexivity|].
  apply (proj1 (register_invalid_name IsUpperLatin1 newServiceMap plain false false)
           "plain").
  - reflexivity.
  - right. reflexivity.
Defined.

(** C8 (amended) on [calc] under ["Calc"] and its method [Add]. *)
Lemma register_get_roundtrip_witness :
  ∃ s sm,
    mapGet (services calcRegistry) "Calc" = Some s ∧
    name s = "Calc" ∧ passReq s = false ∧ rcvr s = reflect_ValueOf calc ∧
    methods s !! Name mAdd = Some sm ∧
    descriptorOf false mAdd sm ∧
    ∀ m'', extends IsUpperLatin1 calcRegistry m'' →
      get m'' ("Calc" ++ "." ++ Name mAdd) = Ret (Some s, Some sm, None).
Proof.
  apply (register_get_roundtrip IsUpperLatin1 newServiceMap calc "Calc" false
           calcRegistry "Calc" mAdd).
  - exact register_calc.
  - reflexivity.
  - reflexivity.
  - by vm_compute; compute_done.
  - left.
  - reflexivity.
  - exact conforms_mAdd.
Defined.

(** C9 on the registration of [calc] under ["Calc"]. *)
Lemma register_frame_witness :
  ∃ s, stored false calcRegistry s ∧
       (defaultService calcRegistry = defaultService newServiceMap ∧
        serviceName calc "Calc" = Some (name s) ∧
        mapGet (services newServiceMap) (name s) = None ∧
        ∀ k, k ≠ name s →
             mapGet (services calcRegistry) k = mapGet (services newServiceMap) k).
Proof.
  exact (register_frame IsUpperLatin1 newServiceMap calc "Calc" false false
           calcRegistry register_calc).
Defined.

(** C5, as stated, fails twice on the receiver [plain], none of whose
    methods conforms: without an explicit name the call fails on the name
    first, and with the explicit name ["Calc"] the error carries ["Calc"],
    not the name of the receiver's type. *)
Lemma register_no_methods_counterexample :
  (∀ mth, mth ∈ methodsOf plain → ¬ conforms IsUpperLatin1 false mth) ∧
  (register IsUpperLatin1 newServiceMap plain "" false false =
     Ret (newServiceMap, Some (ErrTypeNotExported "plain")) ∧
   kind_of (ErrTypeNotExported "plain") ≠ NoEligibleMethods) ∧
  (register IsUpperLatin1 newServiceMap plain "Calc" false false =
     Ret (newServiceMap, Some (ErrNoSuitableMethods "Calc")) ∧
   derivedName plain = Some "plain" ∧
   String_of (typ plainType) = "*main.plain").
Proof.
  split; [|split; [split; [reflexivity|discriminate]|repeat split]].
  intros mth Hin. apply list_elem_of_singleton in Hin as ->.
  apply not_conforms_mReset.
Qed.

(** C6, as stated, fails on the explicit name ["calc"]: it does not start
    with an upper-case letter and the registration succeeds. *)
Lemma register_invalid_name_counterexample :
  isExported IsUpperLatin1 "calc" = false ∧
  register IsUpperLatin1 newServiceMap calc "calc" false false =
    Ret (lowerRegistry, None).
Proof. split; [reflexivity|]. vm_compute. reflexivity. Qed.

(** C8, as stated, fails on the service name ["a.b"]: the registration
    succeeds and installs [Add], and ["a.b.Add"] has three parts. *)
Lemma register_get_roundtrip_counterexample :
  register IsUpperLatin1 newServiceMap calc "a.b" false false =
    Ret (dottedRegistry, None) ∧
  conforms IsUpperLatin1 false mAdd ∧
  mapGet (services dottedRegistry) "a.b" ≫= (λ s, methods s !! Name mAdd) =
    Some addDescriptor ∧
  get dottedRegistry ("a.b" ++ "." ++ Name mAdd) =
    Ret (None, None, Some (ErrIllFormed "a.b.Add")).
Proof.
  split; [vm_compute; reflexivity|]. split; [exact conforms_mAdd|].
  split; vm_compute; reflexivity.
Qed.

(** * Further properties of the registry *)

Section SplitJoin.

Lemma strings_Split_two s a b :
  strings_Split s "." = [a; b] →
  s = a ++ "." ++ b ∧ dotFree a = true ∧ dotFree b = true.
Proof.
  revert a b. induction s as [|c rest IH]; intros a b; simpl; [done|].
  destruct (Ascii.eqb c ".") eqn:E.
  - apply Ascii.eqb_eq in E as ->. intros [= <- H].
    by destruct (strings_Split_single _ _ H) as [-> ->].
  - destruct (strings_Split rest ".") as [|q qs] eqn:Eq; [done|].
    intros [= <- ->]. destruct (IH _ _ eq_refl) as (-> & Hq & Hb).
    simpl. by rewrite E, Hq, Hb.
Qed.

Lemma strings_Join_Split s : strings_Join (strings_Split s ".") "." = s.
Proof.
  induction s as [|c rest IH]; [done|]. cbn [strings_Split].
  destruct (Ascii.eqb c ".") eqn:E.
  - apply Ascii.eqb_eq in E as ->.
    destruct (strings_Split rest ".") as [|q qs] eqn:Eq;
      [by destruct (strings_Split_nonempty _ _ Eq)|].
    cbn [strings_Join]. cbn [strings_Join] in IH. by rewrite IH.
  - destruct (strings_Split rest ".") as [|q qs] eqn:Eq;
      [by destruct (strings_Split_nonempty _ _ Eq)|].
    cbn [strings_Join] in *. destruct qs; simpl in *; by rewrite <- IH.
Qed.

Lemma strings_Split_parts s :
  Forall (λ p, dotFree p = true) (strings_Split s ".").
Proof.
  induction s as [|c rest IH]; simpl; [by constructor|].
  destruct (Ascii.eqb c ".") eqn:E; [by constructor|].
  destruct (strings_Split rest ".") as [|q qs]; [by repeat constructor; simpl; rewrite E|].
  inversion_clear IH as [|?? Hq Hqs]. constructor; [|done].
  simpl. by rewrite E, Hq.
Qed.

Lemma strings_Split_length s :
  List.length (strings_Split s ".") = S (strings_Count s ".").
Proof.
  induction s as [|c rest IH]; simpl; [done|].
  destruct (Ascii.eqb c "."); simpl; [by rewrite IH|].
  by destruct (strings_Split rest ".").
Qed.

Lemma strings_Split_Join_parts ps :
  ps ≠ [] → Forall (λ p, dotFree p = true) ps →
  strings_Split (strings_Join ps ".") "." = ps.
Proof.
  induction ps as [|p rest IH]; [done|]. intros _ Hall.
  inversion_clear Hall as [|?? Hp Hrest]. cbn [strings_Join].
  destruct rest as [|q rest]; [by apply strings_Split_dotFree|].
  rewrite strings_Split_app; [|done]. f_equal. by apply IH.
Qed.

End SplitJoin.

Section LookupResults.

(** X16.  [strings.Split] on ['.'] and [strings.Join] with ['.'] are
    inverse to each other: the parts of a name joined by dots give the
    name back, no part holds a dot, there is one part more than there are
    dots, and every non-empty list of dot-free parts is the split of its
    join. *)
Theorem strings_Split_Join_roundtrip s :
  strings_Join (strings_Split s ".") "." = s ∧
  Forall (λ p, dotFree p = true) (strings_Split s ".") ∧
  List.length (strings_Split s ".") = S (strings_Count s ".") ∧
  ∀ ps, ps ≠ [] → Forall (λ p, dotFree p = true) ps →
        strings_Split (strings_Join ps ".") "." = ps.
Proof.
  split; [apply strings_Join_Split|]. split; [apply strings_Split_parts|].
  split; [apply strings_Split_length|]. apply strings_Split_Join_parts.
Qed.

(** X1.  Whatever [get] returns is either a service with one of its
    method descriptors and no error, or no service, no descriptor and an
    error, which is the ill-formed or the method-not-found error for the
    name asked: the can't-find-service error of lines 214-218 is never
    returned. *)
Theorem get_result_shape m method os om oe :
  get m method = Ret (os, om, oe) →
  (∃ s sm k, os = Some s ∧ om = Some sm ∧ oe = None ∧
             methods s !! k = Some sm) ∨
  (os = None ∧ om = None ∧
   (oe = Some (ErrIllFormed method) ∨ oe = Some (ErrNoMethod method))).
Proof.
  unfold get.
  destruct (strings_Split method ".") as [|p0 [|p1 [|p2 ps]]]; simpl;
    unfold index; simpl.
  - intros [= <- <- <-]. right. eauto.
  - destruct (defaultService m) as [svc|]; simpl; [|done].
    destruct (methods svc !! p0) as [sm|] eqn:E; simpl; intros [= <- <- <-].
    + left. eauto 10.
    + right. eauto.
  - destruct (mapGet (services m) p0) as [svc|]; simpl; [|done].
    destruct (methods svc !! p1) as [sm|] eqn:E; simpl; intros [= <- <- <-].
    + left. eauto 10.
    + right. eauto.
  - intros [= <- <- <-]. right. eauto.
Qed.

(** X2.  [get] faults in one situation only: it panics exactly when the
    name has one or two parts and the service it selects is absent, and
    the panic is the nil dereference.  *)
Theorem get_faults_iff m method p :
  get m method = Panic p ↔
  selected m method = Some None ∧ p = NilDereference.
Proof.
  split.
  - intros H. destruct (selected m method) as [[svc|]|] eqn:Hs.
    + rewrite get_Resolve in H; [done|by rewrite Hs].
    + rewrite (get_absent _ _ Hs) in H. by simplify_eq.
    + rewrite get_Resolve in H; [done|by rewrite Hs].
  - intros [Hs ->]. by apply get_absent.
Qed.

(** What a successful [get] has looked at. *)
Lemma get_success_inv m method s sm :
  get m method = Ret (Some s, Some sm, None) →
  (dotFree method = true ∧ defaultService m = Some s ∧
   methods s !! method = Some sm) ∨
  (∃ N M, method = N ++ "." ++ M ∧ dotFree N = true ∧ dotFree M = true ∧
          mapGet (services m) N = Some s ∧ methods s !! M = Some sm).
Proof.
  unfold get.
  destruct (strings_Split method ".") as [|p0 [|p1 [|p2 ps]]] eqn:E; simpl;
    unfold index; simpl; [done| | |done].
  - destruct (strings_Split_single _ _ E) as [-> Hb].
    destruct (defaultService m) as [svc|]; simpl; [|done].
    destruct (methods svc !! method) as [sm'|] eqn:Esm; simpl; [|done].
    intros [= <- <-]. by left.
  - destruct (strings_Split_two _ _ _ E) as (-> & Hn & Hk).
    destruct (mapGet (services m) p0) as [svc|] eqn:Es; simpl; [|done].
    destruct (methods svc !! p1) as [sm'|] eqn:Esm; simpl; [|done].
    intros [= <- <-]. right. eauto 10.
Qed.

(** X3.  [get] succeeds with the service [s] and the descriptor [sm]
    exactly when the name is a bare name of a method of the default
    service [s], or is ["N.M"] with neither [N] nor [M] holding a dot,
    [s] registered under [N] and [sm] stored in [s] under [M]. *)
Theorem get_success_iff m method s sm :
  get m method = Ret (Some s, Some sm, None) ↔
  (dotFree method = true ∧ defaultService m = Some s ∧
   methods s !! method = Some sm) ∨
  (∃ N M, method = N ++ "." ++ M ∧ dotFree N = true ∧ dotFree M = true ∧
          mapGet (services m) N = Some s ∧ methods s !! M = Some sm).
Proof.
  split; [apply get_success_inv|].
  intros [(Hb & Hd & Hsm)|(N & M & -> & HN & HM & Hs & Hsm)].
  - rewrite (get_bare m s); [|done..]. unfold methodOf. by rewrite Hsm.
  - rewrite (get_dotted m s); [|done..]. unfold methodOf. by rewrite Hsm.
Qed.

End LookupResults.

Section RegisterResults.

Variable IsUpper : rune -> bool.

Lemma isExported_empty : isExported IsUpper "" = IsUpper RuneError.
Proof. reflexivity. Qed.

Lemma register_error_same m r n p d m' e :
  register IsUpper m r n p d = Ret (m', Some e) → m' = m.
Proof.
  destruct r as [|T isNil].
  { destruct (register_nil IsUpper m n p d) as [pn ->]. done. }
  rewrite register_Register. unfold Register.
  destruct (serviceName (Iface T isNil) n) as [sn|]; [|done].
  destruct ((n =? "") && negb (isExported IsUpper sn)); [by intros [= <- _]|].
  destruct (sn =? ""); [by intros [= <- _]|].
  destruct (setupMethods IsUpper p (methodSet T) ∅) as [|ms]; [done|].
  destruct (size ms =? 0)%nat; [by intros [= <- _]|].
  destruct d; [done|].
  destruct (mapGet (services m) sn); [by intros [= <- _]|done].
Qed.

(** X4.  A call of [register] that returns an error returns the registry
    it was given, and the error is one of the name errors, the
    no-suitable-methods error or, for a non-default call only, the
    already-defined error. *)
Theorem register_error_keeps_registry m r n p d m' e :
  register IsUpper m r n p d = Ret (m', Some e) →
  m' = m ∧
  (kind_of e = InvalidServiceName ∨ kind_of e = NoEligibleMethods ∨
   kind_of e = DuplicateService ∧ d = false).
Proof.
  destruct r as [|T isNil].
  { destruct (register_nil IsUpper m n p d) as [pn ->]. done. }
  rewrite register_Register. unfold Register.
  destruct (serviceName (Iface T isNil) n) as [sn|]; [|done].
  destruct ((n =? "") && negb (isExported IsUpper sn)); [intros [= <- <-]; eauto|].
  destruct (sn =? ""); [intros [= <- <-]; eauto|].
  destruct (setupMethods IsUpper p (methodSet T) ∅) as [|ms]; [done|].
  destruct (size ms =? 0)%nat; [intros [= <- <-]; eauto|].
  destruct d; [done|].
  destruct (mapGet (services m) sn); [intros [= <- <-]; eauto|done].
Qed.

(** X5.  [register] panics exactly on the nil interface (in
    [reflect.Value.Type] when the name is to be derived, in
    [rcvrType.NumMethod] otherwise) and on a nil pointer whose name is to
    be derived; with an explicit name a nil pointer is registered like any
    other receiver. *)
Theorem register_panics_iff m r n p d pn :
  register IsUpper m r n p d = Panic pn ↔
  (r = NilIface ∧ pn = (if n =? "" then ZeroValueType else NilDereference)) ∨
  (n = "" ∧ nilPointer r ∧ pn = ZeroValueType).
Proof.
  destruct r as [|T isNil].
  - unfold register. simpl. destruct (n =? "") eqn:E; simpl.
    + split; [intros [= <-]; by left|].
      intros [[_ ->]|(_ & (T & e & ? & _) & _)]; done.
    + rewrite E. simpl. split; [intros [= <-]; by left|].
      intros [[_ ->]|(-> & _)]; done.
  - rewrite register_Register. unfold Register, serviceName, nilPointer.
    destruct (String.eqb_spec n "") as [->|Hn]; simpl.
    + destruct T as [[k pp nn ss|e] mset]; simpl.
      * split; [|intros [[? _]|(_ & (T & e & [= <- _] & ?) & _)]; done].
        destruct (negb (isExported IsUpper nn)); [done|].
        destruct (nn =? ""); [done|].
        destruct (setupMethods_total IsUpper p mset ∅) as [ms ->].
        destruct (size ms =? 0)%nat; [done|]. destruct d; [done|].
        by destruct (mapGet (services m) nn).
      * destruct isNil; simpl.
        -- split; [intros [= <-]; right; eauto 10|].
           by intros [[? _]|(_ & _ & ->)].
        -- split; [|intros [[? _]|(_ & (T & e' & [= _ ?] & ?) & _)]; done].
           destruct (negb (isExported IsUpper (Name_of e))); [done|].
           destruct (Name_of e =? ""); [done|].
           destruct (setupMethods_total IsUpper p mset ∅) as [ms ->].
           destruct (size ms =? 0)%nat; [done|]. destruct d; [done|].
           by destruct (mapGet (services m) (Name_of e)).
    + split; [|intros [[? _]|(? & _)]; done].
      destruct (n =? ""); [done|].
      destruct (setupMethods_total IsUpper p (methodSet T) ∅) as [ms ->].
      destruct (size ms =? 0)%nat; [done|]. destruct d; [done|].
      by destruct (mapGet (services m) n).
Qed.

(** X6.  For a receiver that is not the nil interface, [register]
    succeeds exactly when the call has a service name (explicit, or derived
    and then exported) that is not empty, some method of the receiver has
    the required shape, and the call is a default registration or the name
    is free among the named services. *)
Theorem register_succeeds_iff m T isNil n p d :
  (∃ m', register IsUpper m (Iface T isNil) n p d = Ret (m', None)) ↔
  ∃ sn, serviceName (Iface T isNil) n = Some sn ∧
        sn ≠ "" ∧
        (n = "" → isExported IsUpper sn = true) ∧
        (∃ mth, mth ∈ methodSet T ∧ conforms IsUpper p mth) ∧
        (d = true ∨ mapGet (services m) sn = None).
Proof.
  rewrite register_Register. unfold Register.
  destruct (serviceName (Iface T isNil) n) as [sn|] eqn:Hsn;
    [|split; [by intros [? ?]|by intros (? & ? & _)]].
  destruct (setupMethods_total IsUpper p (methodSet T) ∅) as [ms Hms].
  rewrite Hms. pose proof (setupMethods_size IsUpper _ _ _ Hms) as Hsz.
  split.
  - intros [m' H]. exists sn. split; [done|].
    destruct (String.eqb_spec n "") as [->|Hn]; simpl in H.
    + destruct (isExported IsUpper sn) eqn:Hex; simpl in H; [|done].
      destruct (String.eqb_spec sn "") as [->|Hne]; [done|].
      destruct (size ms =? 0)%nat eqn:E; [done|].
      do 2 (split; [done|]). split; [by apply Hsz|].
      destruct d; [by left|right]. by destruct (mapGet (services m) sn).
    + destruct (String.eqb_spec sn "") as [->|Hne]; [done|].
      destruct (size ms =? 0)%nat eqn:E; [done|].
      do 2 (split; [done|]). split; [by apply Hsz|].
      destruct d; [by left|right]. by destruct (mapGet (services m) sn).
  - intros (sn' & [= <-] & Hne & Hex & Hc & Hfree).
    apply Hsz in Hc. rewrite Hc.
    apply String.eqb_neq in Hne. rewrite Hne.
    assert ((n =? "") && negb (isExported IsUpper sn) = false) as ->.
    { destruct (String.eqb_spec n "") as [E|_]; [|done]. by rewrite (Hex E). }
    destruct d; [by eexists|]. destruct Hfree as [? | ->]; [done|]. by eexists.
Qed.

(** X7.  The second name check of [register] (lines 70-73) cannot fire
    once [unicode.IsUpper] rejects U+FFFD, the rune an empty name decodes
    to: an empty derived name is caught by the not-exported check before
    it, and an explicit name is not empty. *)
Theorem register_never_ErrNoServiceName m r n p d m' t :
  IsUpper RuneError = false →
  register IsUpper m r n p d ≠ Ret (m', Some (ErrNoServiceName t)).
Proof.
  intros HU. destruct r as [|T isNil].
  { destruct (register_nil IsUpper m n p d) as [pn ->]. done. }
  rewrite register_Register. unfold Register, serviceName.
  destruct (String.eqb_spec n "") as [->|Hn].
  - destruct (derivedName (Iface T isNil)) as [sn|]; [|done]. simpl.
    destruct (isExported IsUpper sn) eqn:Hex; simpl; [|done].
    destruct (String.eqb_spec sn "") as [->|_].
    { rewrite isExported_empty in Hex. congruence. }
    destruct (setupMethods IsUpper p (methodSet T) ∅) as [|ms]; [done|].
    destruct (size ms =? 0)%nat; [done|]. destruct d; [done|].
    by destruct (mapGet (services m) sn).
  - simpl. apply String.eqb_neq in Hn. rewrite Hn.
    destruct (setupMethods IsUpper p (methodSet T) ∅) as [|ms]; [done|].
    destruct (size ms =? 0)%nat; [done|]. destruct d; [done|].
    by destruct (mapGet (services m) n).
Qed.

End RegisterResults.

Section RegistryInvariant.

Variable IsUpper : rune -> bool.

(** The service a validated call builds is well formed. *)
Lemma validated_service_wf r n p sn ms :
  validated IsUpper r n p sn ms → service_wf IsUpper (mkService r sn p ms).
Proof.
  intros (T & isNil & -> & _ & _ & Hne & Hms & Hsz).
  split; [by apply String.eqb_neq|]. split; [by apply size_eqb_0|].
  split; [by eexists|]. intros k sm Hk. simpl in Hk.
  destruct (setupMethods_sound _ _ _ _ _ _ _ Hms Hk)
    as [H|(mth & Hin & <- & Hc & Hd)]; [by rewrite lookup_empty in H|].
  pose proof Hd as [<- _]. split; [done|]. split; [done|]. split; [done|].
  exists T. done.
Qed.

Lemma register_wf m r n p d m' e :
  registry_wf IsUpper m →
  register IsUpper m r n p d = Ret (m', e) → registry_wf IsUpper m'.
Proof.
  intros Hwf Hreg. destruct e as [e|].
  { by rewrite (register_error_same IsUpper _ _ _ _ _ _ _ Hreg). }
  destruct (register_success _ _ _ _ _ _ _ Hreg) as (sn & ms & Hv).
  pose proof (validated_service_wf _ _ _ _ _ Hv) as Hs.
  rewrite (register_validated _ _ _ _ _ d _ _ Hv) in Hreg. simpl in Hreg.
  destruct Hwf as [Hdef Hnamed]. destruct d.
  - simplify_eq. split; simpl; [by intros s [= <-]|done].
  - destruct (mapGet (services m) sn) eqn:Hfree; simplify_eq.
    split; simpl; [done|]. intros k s. rewrite lookup_insert.
    case_decide as Hk; [by intros [= <-]|].
    intros Hl. apply Hnamed. destruct (services m); simpl in *; [done|].
    by rewrite lookup_empty in Hl.
Qed.

Lemma extends_wf m m' :
  registry_wf IsUpper m → extends IsUpper m m' → registry_wf IsUpper m'.
Proof.
  intros Hwf. induction 1 as [|m' r n p d m'' e _ IH Hreg]; [done|].
  by eapply register_wf.
Qed.

Lemma newServiceMap_wf : registry_wf IsUpper newServiceMap.
Proof. split; simpl; done. Qed.

(** X8.  In every registry built from the zero value by calls of
    [register], each service, default or named, has a name that is not
    empty, a receiver type, at least one method, and under each method
    name the descriptor of a conforming method of that name of its
    receiver; a named service is stored under its own name. *)
Theorem registry_invariant m :
  extends IsUpper newServiceMap m → registry_wf IsUpper m.
Proof. apply extends_wf, newServiceMap_wf. Qed.

(** X9.  What [get] hands to the transport in such a registry has the
    shape the service's [passReq] announces: the resolved method is
    exported, its parameters after the receiver are [*http.Request] when
    [passReq] is set, then a pointer to the recorded argument type and a
    pointer to the recorded reply type, and its only result is [error]. *)
Theorem get_returns_conforming m mname s sm :
  extends IsUpper newServiceMap m →
  get m mname = Ret (Some s, Some sm, None) →
  PkgPath (method sm) = "" ∧
  params (method sm) =
    ((if passReq s then [TPtr typeOfRequest] else []) ++
     [TPtr (argsType sm); TPtr (replyType sm)])%list ∧
  outs (Typ (method sm)) = [typeOfError] ∧
  isExportedOrBuiltin IsUpper (argsType sm) = true ∧
  isExportedOrBuiltin IsUpper (replyType sm) = true.
Proof.
  intros Hext Hget. destruct (extends_wf _ _ newServiceMap_wf Hext) as [Hdef Hnamed].
  assert (∃ k, service_wf IsUpper s ∧ methods s !! k = Some sm) as (k & Hs & Hk).
  { apply get_success_inv in Hget
      as [(_ & Hd & Hsm)|(N & M & _ & _ & _ & Hsv & Hsm)].
    - exists mname. split; [by apply Hdef|done].
    - exists M. split; [by apply (Hnamed N)|done]. }
  destruct Hs as (_ & _ & _ & Hdesc).
  destruct (Hdesc _ _ Hk) as (_ & (Hpkg & Hshape & Houts) & (_ & a & b & Hdrop & -> & ->) & _).
  split; [done|]. split; [|split; [done|]].
  - destruct (passReq s); simpl in *.
    + destruct (params (method sm)) as [|q [|x [|y [|??]]]]; try done.
      destruct Hshape as (-> & _). simpl in Hdrop. by simplify_eq.
    + done.
  - destruct (passReq s); simpl in *.
    + destruct (params (method sm)) as [|q [|x [|y [|??]]]]; try done.
      destruct Hshape as (_ & (e1 & ? & ?) & (e2 & ? & ?)).
      simpl in Hdrop. by simplify_eq.
    + destruct (params (method sm)) as [|x [|y [|??]]]; try done.
      destruct Hshape as ((e1 & ? & ?) & (e2 & ? & ?)).
      simpl in Hdrop. by simplify_eq.
Qed.

End RegistryInvariant.

Section Composition.

Variable IsUpper : rune -> bool.

(** [get] only reads the default slot for a one-part name and the named
    services otherwise. *)
Lemma get_same_services m m' method :
  services m' = services m →
  List.length (strings_Split method ".") ≠ 1%nat →
  get m' method = get m method.
Proof.
  intros Hs Hlen. unfold get. rewrite Hs.
  by destruct (strings_Split method ".") as [|p0 [|p1 [|p2 ps]]].
Qed.

Lemma get_mono m m' method res :
  defaultService m' = defaultService m →
  (∀ k s, mapGet (services m) k = Some s → mapGet (services m') k = Some s) →
  get m method = Ret res → get m' method = Ret res.
Proof.
  intros Hd Hs. unfold get. rewrite Hd.
  destruct (strings_Split method ".") as [|p0 [|p1 [|p2 ps]]]; simpl;
    unfold index; simpl; [done..| |done].
  destruct (mapGet (services m) p0) as [svc|] eqn:E; simpl; [|done].
  by rewrite (Hs _ _ E).
Qed.

Lemma register_named_default m r n p m' e :
  register IsUpper m r n p false = Ret (m', e) →
  defaultService m' = defaultService m.
Proof.
  intros Hreg. destruct e as [e|].
  { by rewrite (register_error_same IsUpper _ _ _ _ _ _ _ Hreg). }
  destruct (register_success _ _ _ _ _ _ _ Hreg) as (sn & ms & Hv).
  rewrite (register_validated _ _ _ _ _ false _ _ Hv) in Hreg. simpl in Hreg.
  destruct (mapGet (services m) sn); by simplify_eq.
Qed.

Lemma register_default_services m r n p m' e :
  register IsUpper m r n p true = Ret (m', e) → services m' = services m.
Proof.
  intros Hreg. destruct e as [e|].
  { by rewrite (register_error_same IsUpper _ _ _ _ _ _ _ Hreg). }
  destruct (register_success _ _ _ _ _ _ _ Hreg) as (sn & ms & Hv).
  rewrite (register_validated _ _ _ _ _ true _ _ Hv) in Hreg. simpl in Hreg.
  by simplify_eq.
Qed.

(** X10.  Named registrations commute: if registering [ra] and then [rb]
    succeeds, so does registering [rb] and then [ra], and the registry
    that results is the same. *)
Theorem register_named_commute m ra na pa m1 rb nb pb m2 :
  register IsUpper m ra na pa false = Ret (m1, None) →
  register IsUpper m1 rb nb pb false = Ret (m2, None) →
  ∃ m1', register IsUpper m rb nb pb false = Ret (m1', None) ∧
         register IsUpper m1' ra na pa false = Ret (m2, None).
Proof.
  intros H1 H2.
  destruct (register_success _ _ _ _ _ _ _ H1) as (sna & msa & Hva).
  destruct (register_success _ _ _ _ _ _ _ H2) as (snb & msb & Hvb).
  rewrite (register_validated _ _ _ _ _ false _ _ Hva) in H1.
  rewrite (register_validated _ _ _ _ _ false _ _ Hvb) in H2.
  rewrite !(register_validated _ _ _ _ _ false _ _ Hvb).
  simpl in *.
  destruct (mapGet (services m) sna) eqn:Ha; simplify_eq. simpl in H2.
  destruct (decide (sna = snb)) as [->|Hne].
  { by rewrite lookup_insert_eq in H2. }
  rewrite lookup_insert_ne in H2; [|done].
  assert (mapGet (services m) snb = None) as Hb.
  { destruct (services m); simpl in *; [by destruct (_ !! snb)|done]. }
  rewrite Hb. eexists. split; [done|].
  rewrite (register_validated _ _ _ _ _ false _ _ Hva). simpl.
  rewrite lookup_insert_ne; [|done].
  assert (default ∅ (services m) !! sna = None) as ->.
  { by destruct (services m). }
  assert (default ∅ (services m) !! snb = None) as Hb'.
  { by destruct (services m). }
  rewrite Hb' in H2. simplify_eq. unfold with_services. simpl.
  by rewrite insert_insert_ne.
Qed.

(** X11.  A non-default registration, successful or not, changes no
    answer of [get]: every name that [get] answered before, with a result
    or with an error, gets the same answer after. *)
Theorem register_named_keeps_answers m r n p m' e method res :
  register IsUpper m r n p false = Ret (m', e) →
  get m method = Ret res →
  get m' method = Ret res.
Proof.
  intros Hreg. apply get_mono.
  - by eapply register_named_default.
  - intros k s. by eapply register_keeps_named.
Qed.

(** X12.  A default registration, successful or not, changes nothing for
    dotted names: for every name of other than one part [get] gives what
    it gave before, a fault included. *)
Theorem register_default_keeps_dotted m r n p m' e method :
  register IsUpper m r n p true = Ret (m', e) →
  List.length (strings_Split method ".") ≠ 1%nat →
  get m' method = get m method.
Proof.
  intros Hreg. apply get_same_services. by eapply register_default_services.
Qed.

(** X17.  After a successful default registration each conforming method
    of the receiver resolves by its bare name to the new default service
    and to its descriptor. *)
Theorem register_default_roundtrip m r n p m' mth :
  register IsUpper m r n p true = Ret (m', None) →
  NoDup (Name <$> methodsOf r) →
  mth ∈ methodsOf r →
  dotFree (Name mth) = true →
  conforms IsUpper p mth →
  ∃ s sm,
    defaultService m' = Some s ∧
    serviceName r n = Some (name s) ∧ passReq s = p ∧
    methods s !! Name mth = Some sm ∧
    descriptorOf p mth sm ∧
    get m' (Name mth) = Ret (Some s, Some sm, None).
Proof.
  intros Hreg Hnd Hin HM Hc.
  destruct (register_success _ _ _ _ _ _ _ Hreg) as (sn & ms & Hv).
  rewrite (register_validated _ _ _ _ _ true _ _ Hv) in Hreg. simpl in Hreg.
  simplify_eq.
  pose proof (validated_installs _ _ _ _ _ _ Hnd Hv) as Hinst.
  destruct (scanMethod_cases IsUpper p mth) as [(sm & _ & _ & Hd)|[_ ?]]; [|done].
  assert (ms !! Name mth = Some sm) as Hsm by (apply Hinst; eauto).
  exists (mkService r sn p ms), sm. simpl. split; [done|].
  split; [by destruct Hv as (T & isNil & -> & ? & _)|]. do 3 (split; [done|]).
  rewrite (get_bare _ (mkService r sn p ms)); [|done..].
  unfold methodOf. simpl. by rewrite Hsm.
Qed.

End Composition.

Section Shapes.

Variable IsUpper : rune -> bool.

Lemma conforms_exclusive mth :
  conforms IsUpper true mth → conforms IsUpper false mth → False.
Proof.
  intros (_ & H1 & _) (_ & H2 & _).
  by destruct (params mth) as [|a [|b [|c [|??]]]].
Qed.

(** X13.  The two calling conventions exclude each other: run on the
    same method set with [passReq] set and with [passReq] clear, the
    method loop never accepts a method name both times. *)
Theorem setupMethods_passReq_exclusive ms a b k :
  NoDup (Name <$> ms) →
  setupMethods IsUpper true ms ∅ = Ret a →
  setupMethods IsUpper false ms ∅ = Ret b →
  a !! k = None ∨ b !! k = None.
Proof.
  intros Hnd Ha Hb.
  destruct (a !! k) as [sa|] eqn:Eka; [|by left].
  destruct (b !! k) as [sb|] eqn:Ekb; [|by right].
  destruct (setupMethods_sound _ _ _ _ _ _ _ Ha Eka)
    as [H|(ma & Hina & Hna & Hca & _)]; [by rewrite lookup_empty in H|].
  destruct (setupMethods_sound _ _ _ _ _ _ _ Hb Ekb)
    as [H|(mb & Hinb & Hnb & Hcb & _)]; [by rewrite lookup_empty in H|].
  assert (ma = mb) as -> by (eapply NoDup_Name_inj; [done..|congruence]).
  by destruct (conforms_exclusive mb).
Qed.

(** X14.  [isExportedOrBuiltin] looks through every level of pointer: a
    type is accepted exactly when, under some number of pointers, it is a
    type that is not a pointer with an exported name or with an empty
    package path (a predeclared or an unnamed type). *)
Theorem isExportedOrBuiltin_iff t :
  isExportedOrBuiltin IsUpper t = true ↔
  ∃ depth k pkg nm str,
    t = Nat.iter depth TPtr (TBase k pkg nm str) ∧
    (isExported IsUpper nm = true ∨ pkg = "").
Proof.
  induction t as [k pkg nm str|e IH].
  - unfold isExportedOrBuiltin. simpl. rewrite orb_true_iff, String.eqb_eq.
    split.
    + intros H. by exists 0%nat, k, pkg, nm, str.
    + intros (depth & k' & pkg' & nm' & str' & Ht & H).
      destruct depth; simpl in Ht; by simplify_eq.
  - rewrite isExportedOrBuiltin_TPtr, IH. split.
    + intros (depth & k & pkg & nm & str & -> & H).
      by exists (S depth), k, pkg, nm, str.
    + intros (depth & k & pkg & nm & str & Ht & H).
      destruct depth; simpl in Ht; simplify_eq. eauto 10.
Qed.

(** X15.  For a name whose first byte is ASCII, [isExported] is
    [unicode.IsUpper] of that byte: the rest of the name is not looked
    at. *)
Theorem isExported_ascii c rest :
  (byteZ c < 128)%Z →
  isExported IsUpper (String c rest) = IsUpper (byteZ c).
Proof.
  intros Hc. unfold isExported, DecodeRuneInString.
  change (byteAt (String c rest) 0) with (byteZ c).
  unfold utf8_first. simpl String.length. cbn [Nat.ltb Nat.leb].
  by destruct (Z.ltb_spec (byteZ c) 128); [|lia].
Qed.

End Shapes.

Section EmptyServiceName.

Variable IsUpper : rune -> bool.

(** X18.  No service is ever registered under the empty name, so in a
    registry built by [register] a name that starts with its only dot
    selects an absent service and [get] faults on it. *)
Theorem get_leading_dot_faults m M :
  extends IsUpper newServiceMap m →
  dotFree M = true →
  mapGet (services m) "" = None ∧
  get m ("." ++ M) = Panic NilDereference.
Proof.
  intros Hext HM.
  assert (mapGet (services m) "" = None) as Hnone.
  { destruct (mapGet (services m) "") as [s|] eqn:E; [|done].
    destruct (extends_wf IsUpper _ _ (newServiceMap_wf IsUpper) Hext) as [_ Hnamed].
    destruct (Hnamed _ _ E) as (Hname & Hne & _). done. }
  split; [done|]. apply get_absent.
  change ("." ++ M) with ("" ++ "." ++ M).
  by rewrite selected_dotted, Hnone.
Qed.

End EmptyServiceName.

(** * The further properties on the sample receivers *)

Lemma register_hello_after_calc :
  register IsUpperLatin1 calcRegistry helloService "" true false =
    Ret (calcThenHello, None).
Proof. vm_compute. reflexivity. Qed.

Lemma extends_calcRegistry : extends IsUpperLatin1 newServiceMap calcRegistry.
Proof.
  eapply extends_step; [apply extends_refl|exact register_calc].
Qed.

Lemma conforms_mUssdMessage : conforms IsUpperLatin1 true mUssdMessage.
Proof.
  split; [done|]. split; [|done].
  split; [done|]. split; eexists; split; reflexivity.
Qed.

(** X1 on the lookup of ["Calc.Add"] in [calcRegistry]. *)
Lemma get_result_shape_witness :
  (∃ s sm k, Some calcService = Some s ∧ Some addDescriptor = Some sm ∧
             (None : option error) = None ∧ methods s !! k = Some sm) ∨
  ((Some calcService : option service) = None ∧
   (Some addDescriptor : option serviceMethod) = None ∧
   ((None : option error) = Some (ErrIllFormed "Calc.Add") ∨
    (None : option error) = Some (ErrNoMethod "Calc.Add"))).
Proof.
  apply (get_result_shape calcRegistry "Calc.Add"). vm_compute. reflexivity.
Defined.

(** X4 on the registration of [helloService] under the taken name ["Calc"]. *)
Lemma register_error_keeps_registry_witness :
  calcRegistry = calcRegistry ∧
  (kind_of (ErrAlreadyDefined "Calc") = InvalidServiceName ∨
   kind_of (ErrAlreadyDefined "Calc") = NoEligibleMethods ∨
   kind_of (ErrAlreadyDefined "Calc") = DuplicateService ∧ false = false).
Proof.
  apply (register_error_keeps_registry IsUpperLatin1 calcRegistry helloService
           "Calc" true false).
  vm_compute. reflexivity.
Defined.

(** X7 on [plain] with the Latin-1 table. *)
Lemma register_never_ErrNoServiceName_witness :
  IsUpperLatin1 RuneError = false ∧
  register IsUpperLatin1 newServiceMap plain "" false false ≠
    Ret (newServiceMap, Some (ErrNoServiceName "*main.plain")).
Proof.
  split; [reflexivity|].
  apply (register_never_ErrNoServiceName IsUpperLatin1). reflexivity.
Defined.

(** X8 on [calcRegistry]. *)
Lemma registry_invariant_witness : registry_wf IsUpperLatin1 calcRegistry.
Proof.
  apply (registry_invariant IsUpperLatin1). exact extends_calcRegistry.
Defined.

(** X9 on the lookup of ["Calc.Add"] in [calcRegistry]. *)
Lemma get_returns_conforming_witness :
  PkgPath (method addDescriptor) = "" ∧
  params (method addDescriptor) =
    ((if passReq calcService then [TPtr typeOfRequest] else []) ++
     [TPtr (argsType addDescriptor); TPtr (replyType addDescriptor)])%list ∧
  outs (Typ (method addDescriptor)) = [typeOfError] ∧
  isExportedOrBuiltin IsUpperLatin1 (argsType addDescriptor) = true ∧
  isExportedOrBuiltin IsUpperLatin1 (replyType addDescriptor) = true.
Proof.
  apply (get_returns_conforming IsUpperLatin1 calcRegistry "Calc.Add").
  - exact extends_calcRegistry.
  - vm_compute. reflexivity.
Defined.

(** X10: [calc] and [helloService] under their names, in either order. *)
Lemma register_named_commute_witness :
  ∃ m1', register IsUpperLatin1 newServiceMap helloService "" true false =
           Ret (m1', None) ∧
         register IsUpperLatin1 m1' calc "Calc" false false =
           Ret (calcThenHello, None).
Proof.
  apply (register_named_commute IsUpperLatin1 newServiceMap calc "Calc" false
           calcRegistry helloService "" true calcThenHello).
  - exact register_calc.
  - exact register_hello_after_calc.
Defined.

(** X11: ["Calc.Add"] before and after [helloService] is registered. *)
Lemma register_named_keeps_answers_witness :
  get calcThenHello "Calc.Add" =
    Ret (Some calcService, Some addDescriptor, None).
Proof.
  apply (register_named_keeps_answers IsUpperLatin1 calcRegistry helloService
           "" true calcThenHello None).
  - exact register_hello_after_calc.
  - vm_compute. reflexivity.
Defined.

(** X12: ["Calc.Add"] before and after [helloService] becomes the default. *)
Lemma register_default_keeps_dotted_witness :
  get (with_defaultService calcRegistry (Some helloDefault)) "Calc.Add" =
    get calcRegistry "Calc.Add".
Proof.
  apply (register_default_keeps_dotted IsUpperLatin1 calcRegistry helloService
           "" true _ None).
  - vm_compute. reflexivity.
  - simpl. lia.
Defined.

(** X13 on the sample server's methods, which take the request. *)
Lemma setupMethods_passReq_exclusive_witness :
  methods helloDefault !! "Say" = None ∨
  (∅ : gmap string serviceMethod) !! "Say" = None.
Proof.
  apply (setupMethods_passReq_exclusive IsUpperLatin1 (methodSet helloType)).
  - by vm_compute; compute_done.
  - vm_compute. reflexivity.
  - vm_compute. reflexivity.
Defined.

(** X15 on the name ["Calc"]. *)
Lemma isExported_ascii_witness :
  isExported IsUpperLatin1 "Calc" = IsUpperLatin1 67%Z.
Proof.
  apply (isExported_ascii IsUpperLatin1 "C" "alc"). reflexivity.
Defined.

(** X17: the sample server, [RegisterDefaultService(new(HelloService), "")],
    then a call of ["UssdMessage"]. *)
Lemma register_default_roundtrip_witness :
  ∃ s sm,
    defaultService helloRegistry = Some s ∧
    serviceName helloService "" = Some (name s) ∧ passReq s = true ∧
    methods s !! Name mUssdMessage = Some sm ∧
    descriptorOf true mUssdMessage sm ∧
    get helloRegistry (Name mUssdMessage) = Ret (Some s, Some sm, None).
Proof.
  apply (register_default_roundtrip IsUpperLatin1 newServiceMap helloService ""
           true helloRegistry mUssdMessage).
  - exact register_hello.
  - by vm_compute; compute_done.
  - right. left.
  - reflexivity.
  - exact conforms_mUssdMessage.
Defined.

(** X18 on [".Add"] in [calcRegistry]. *)
Lemma get_leading_dot_faults_witness :
  mapGet (services calcRegistry) "" = None ∧
  get calcRegistry ("." ++ "Add") = Panic NilDereference.
Proof.
  apply (get_leading_dot_faults IsUpperLatin1).
  - exact extends_calcRegistry.
  - reflexivity.
Defined.

Section Stability.

Variable IsUpper : rune -> bool.

(** X19.  The answer to a dotted name is final: once [get] has answered
    a name of two parts, with a method or with the method-not-found error,
    it gives the same answer after any further calls of [register],
    default or not. *)
Theorem get_dotted_stable m m' method res :
  extends IsUpper m m' →
  List.length (strings_Split method ".") = 2%nat →
  get m method = Ret res →
  get m' method = Ret res.
Proof.
  intros Hext Hlen. unfold get.
  destruct (strings_Split method ".") as [|p0 [|p1 [|p2 ps]]]; simpl in *;
    unfold index; simpl; [done..| |done].
  destruct (mapGet (services m) p0) as [svc|] eqn:E; simpl; [|done].
  by rewrite (extends_keeps_named IsUpper _ _ _ _ Hext E).
Qed.

End Stability.

Lemma extends_calcThenHello :
  extends IsUpperLatin1 calcRegistry calcThenHello.
Proof.
  eapply extends_step; [apply extends_refl|exact register_hello_after_calc].
Qed.

(** X19: ["Calc.Reset"] is not a method of ["Calc"], before and after
    [helloService] is registered. *)
Lemma get_dotted_stable_witness :
  get calcThenHello "Calc.Reset" =
    Ret (None, None, Some (ErrNoMethod "Calc.Reset")).
Proof.
  apply (get_dotted_stable IsUpperLatin1 calcRegistry calcThenHello).
  - exact extends_calcThenHello.
  - reflexivity.
  - vm_compute. reflexivity.
Defined.
